(** * The task-executor Manager of the distributed task framework

    A shallow embedding of [pkg/disttask/framework/taskexecutor/manager.go].

    The Manager is stateful code that talks to three collaborators through
    interfaces: the task table (the registry), the slot manager (the resource
    ledger) and the task executors.  Its methods are embedded as computations
    of a small state-and-trace monad: the state is the part of [Manager] the
    methods mutate (the executor map and the slot manager), the trace records
    every call the method makes on a collaborator, on the logger, on the lock,
    on the context and on the wait groups, in program order.  The answers of
    the collaborators are inputs of the model.

    Embedded methods: [recoverMeta], [Start], [Cancel], [Stop], [handleTasks],
    [handleExecutableTasks], [cancelRunningSubtaskOf], [handlePausingTask],
    [cancelTaskExecutors], [startTaskExecutor] with the closure it launches,
    [getStepResource], [addTaskExecutor], [delTaskExecutor],
    [isExecutorStarted], [logErr] and [logErrAndPersist].  The two periodic
    loops appear as the units [Start] launches; one call of [handleTasks] is
    one reconciliation round.  [NewManager], [InitMeta] and the bodies of the
    two loops (along the wake-ups they receive) follow the methods. *)

From stdpp Require Import gmap strings list pretty.

Open Scope string_scope.
Open Scope list_scope.
Open Scope Z_scope.

(** ** Errors, durations and the constants of the package *)

(** A Go [error] value: [None] is [nil]. *)
Definition Error : Type := string.
Abbreviation error := (option Error).

(** [time.Duration] counts nanoseconds. *)
Definition Millisecond : Z := 1000000.
Definition Second : Z := 1000 * Millisecond.

Definition DefaultCheckInterval : Z := 300 * Millisecond.
Definition MaxCheckInterval : Z := 2 * Second.
Definition maxChecksWhenNoSubtask : Z := 7.
Definition recoverMetaInterval : Z := 90 * Second.
Definition retrySQLTimes : nat := 30.
Definition retrySQLInterval : Z := 500 * Millisecond.

(** ** Tasks *)

Module proto.

(** Modelled from the spec: the states of a task, as section 3 lists them
    (the declaration is in the [proto] package).  The Manager acts on
    [running], [reverting] and [pausing] only. *)
Inductive TaskState : Type :=
| TaskStatePending
| TaskStateRunning
| TaskStateReverting
| TaskStatePausing
| TaskStatePaused
| TaskStateSucceed
| TaskStateFailed
| TaskStateReverted
| TaskStateCanceled.

Definition TaskType : Type := string.

(** Modelled from the spec: a task has a numeric identity, a type tag, a state,
    a place in the priority order and a concurrency requirement.  The Manager
    reads [ID], [Type], [State] and [Concurrency]. *)
Record Task : Type := {
  ID : Z;
  Type_ : TaskType;
  State : TaskState;
  Priority : Z;
  Concurrency : Z
}.

(** Modelled from the spec: the capacity grant handed to [Run], a CPU
    allocation and a memory allocation. *)
Record StepResource : Type := {
  CPU : Z;
  Mem : Z
}.

End proto.

Module storage.

(** Modelled from the spec: what the registry returns for a task assigned to
    this node.  [TaskExecInfo] embeds a [*proto.Task]: the Manager reads
    [task.State], [task.ID] and [task.Task]. *)
Record TaskExecInfo : Type := {
  Task : proto.Task;
  SubtaskConcurrency : Z
}.

End storage.

Definition is_reverting (s : proto.TaskState) : bool :=
  match s with proto.TaskStateReverting => true | _ => false end.

(** ** The executor contract *)

(** How a call of [Run] ends.  [Run] returns nothing: a normal end, a failure
    and a cancellation are all plain returns; only a panic unwinds. *)
Inductive RunExit : Type :=
| RunFinished
| RunFailed
| RunCanceled
| RunPanicked.

Inductive Completion : Type :=
| Returned
| Panicking.

Definition completion_of (x : RunExit) : Completion :=
  match x with
  | RunPanicked => Panicking
  | _ => Returned
  end.

(** A [TaskExecutor] value (an interface in the source), with the answers it
    gives to the Manager; [Cancel], [CancelRunningSubtask] and [Close] return
    nothing and appear as events only. *)
Record TaskExecutor : Type := {
  GetTask : proto.Task;
  Init : error;
  IsRetryableError : Error -> bool;
  Run : proto.StepResource -> RunExit
}.

(** A registered factory: [factory(ctx, id, task, taskTable)]. *)
Definition Factory : Type := string -> proto.Task -> TaskExecutor.

(** ** Events *)

Inductive LogLevel : Type := LDebug | LInfo | LWarn | LError.

Inductive WaitGroup : Type :=
| wg            (* m.wg: the two loops *)
| executorWG.   (* m.executorWG: the executor units *)

Inductive Loop : Type := handleTasksLoop | recoverMetaLoop.

(** The [zap] fields of a log call. *)
Inductive Field : Type :=
| FError (err : error)
| FInt (key : string) (v : Z)
| FString (key v : string)
| FStack.

Inductive Event : Type :=
(* m.logger *)
| EvLog (lvl : LogLevel) (msg : string) (fields : list Field)
(* m.mu *)
| EvRLock | EvRUnlock | EvLock | EvUnlock
(* writes of m.mu.taskExecutors *)
| EvMapStore (key : Z) (e : TaskExecutor)
| EvMapDelete (key : Z)
(* m.taskTable *)
| EvRecoverMeta (id scope : string)
| EvGetTaskExecInfoByExecID (id : string)
| EvPauseSubtasks (id : string) (taskID : Z)
| EvFailSubtask (id : string) (taskID : Z) (err : Error)
(* m.slotManager *)
| EvCanAlloc (task : proto.Task)
| EvSlotAlloc (task : proto.Task)
| EvSlotFree (taskID : Z)
(* calls on an executor *)
| EvInit (e : TaskExecutor)
| EvRun (e : TaskExecutor) (r : proto.StepResource)
| EvCancel (e : TaskExecutor)
| EvCancelRunningSubtask (e : TaskExecutor)
| EvClose (e : TaskExecutor)
(* m.cancel, time.Sleep and the wait groups *)
| EvCtxCancel
| EvSleep (d : Z)
| EvGoLoop (g : WaitGroup) (l : Loop)
| EvGoExecutor (g : WaitGroup) (task : proto.Task) (e : TaskExecutor)
    (r : proto.StepResource)
| EvWait (g : WaitGroup).

(** ** The slot manager interface *)

(** The slot manager lives in another file of the package; the Manager only
    uses these four methods of it. *)
Class SlotManager (SM : Type) : Type := {
  canAlloc : SM -> proto.Task -> bool * list proto.Task;
  alloc : SM -> proto.Task -> SM;
  free : SM -> Z -> SM;
  availableSlots : SM -> Z
}.

(** ** The Manager and its monad *)

Section Manager.

Context {SM : Type} `{!SlotManager SM}.

Record Manager : Type := {
  taskExecutors : gmap Z TaskExecutor;
  slotManager : SM;
  id : string;
  totalCPU : Z;
  totalMem : Z
}.

Definition set_taskExecutors (f : gmap Z TaskExecutor -> gmap Z TaskExecutor)
    (m : Manager) : Manager :=
  {| taskExecutors := f (taskExecutors m);
     slotManager := slotManager m;
     id := id m; totalCPU := totalCPU m; totalMem := totalMem m |}.

Definition set_slotManager (f : SM -> SM) (m : Manager) : Manager :=
  {| taskExecutors := taskExecutors m;
     slotManager := f (slotManager m);
     id := id m; totalCPU := totalCPU m; totalMem := totalMem m |}.

(** A method of [*Manager]: from the state before the call to the value it
    returns, the state after, and the calls it made. *)
Definition M (A : Type) : Type := Manager -> A * Manager * list Event.

Definition ret {A} (a : A) : M A := fun m => (a, m, []).

Definition bind {A B} (c : M A) (k : A -> M B) : M B :=
  fun m =>
    let '(a, m1, tr1) := c m in
    let '(b, m2, tr2) := k a m1 in
    (b, m2, tr1 ++ tr2).

Definition emit (e : Event) : M unit := fun m => (tt, m, [e]).
Definition get : M Manager := fun m => (m, m, []).
Definition modify (f : Manager -> Manager) : M unit := fun m => (tt, f m, []).

Definition value {A} (r : A * Manager * list Event) : A := r.1.1.
Definition after {A} (r : A * Manager * list Event) : Manager := r.1.2.
Definition trace {A} (r : A * Manager * list Event) : list Event := r.2.

End Manager.

Arguments Manager SM : clear implicits.
Arguments M SM A : clear implicits.

Declare Scope mgr_scope.
Delimit Scope mgr_scope with mgr.
Notation "'let*' x ':=' c 'in' k" := (bind c (fun x => k))
  (at level 10, x name, c at level 100, k at level 200) : mgr_scope.
Notation "c ;; k" := (bind c (fun _ => k))
  (at level 100, k at level 200, right associativity) : mgr_scope.
Notation "'when' b 'then' c" := (if b then c else ret tt)
  (at level 10, b at level 100, c at level 200) : mgr_scope.

(** ** The environment of a call *)

(** The answers of the collaborators the Manager calls through interfaces or
    package-level functions, for the duration of one method call. *)
Record Env : Type := {
  (** [m.taskTable.RecoverMeta]: the answer to the call of loop index [i]. *)
  RecoverMeta : nat -> error;
  (** [m.ctx.Err()] as read after the failed attempt of loop index [i]. *)
  ctxErr : nat -> error;
  (** [m.taskTable.GetTaskExecInfoByExecID]. *)
  GetTaskExecInfoByExecID : list storage.TaskExecInfo * error;
  (** [m.taskTable.PauseSubtasks] and [m.taskTable.FailSubtask]. *)
  PauseSubtasks : Z -> error;
  FailSubtask : Z -> Error -> error;
  (** The factory registry behind [GetTaskExecutorFactory]. *)
  GetTaskExecutorFactory : proto.TaskType -> option Factory;
  (** [config.GetGlobalConfig().Instance.TiDBServiceScope]. *)
  TiDBServiceScope : string;
  (** The floating-point share of memory computed by [getStepResource]:
      [int64(float64(concurrency) / float64(totalCPU) * float64(totalMem))]. *)
  memShare : Z -> Z -> Z -> Z
}.

(** ** The methods of the Manager *)

Section Methods.

Context {SM : Type} `{!SlotManager SM}.
Variable env : Env.

Local Open Scope mgr_scope.
Local Abbreviation M := (M SM).

Definition logErr (err : Error) : M unit :=
  emit (EvLog LError "task manager met error" [FError (Some err); FStack]).

(** *** Identity recovery *)

(** The body of the [for i := 0; i < retrySQLTimes; i++] loop of
    [recoverMeta], with [remaining = retrySQLTimes - i] iterations to go and
    [err] the named result. *)
Fixpoint recoverMeta_loop (remaining i : nat) (err : error) : M error :=
  match remaining with
  | O => ret err
  | S remaining' =>
      let* m := get in
      emit (EvRecoverMeta (id m) (TiDBServiceScope env)) ;;
      match RecoverMeta env i with
      | None => ret None
      | Some e =>
          match ctxErr env i with
          | Some err1 => ret (Some err1)
          | None =>
              (when (i mod 10 =? 0)%nat then
                 emit (EvLog LWarn "recover meta failed"
                         [FString "scope" (TiDBServiceScope env);
                          FInt "retry times" (Z.of_nat i);
                          FError (Some e)])) ;;
              emit (EvSleep retrySQLInterval) ;;
              recoverMeta_loop remaining' (S i) (Some e)
          end
      end
  end.

Definition recoverMeta : M error :=
  recoverMeta_loop retrySQLTimes 0 None.

(** *** Start, Cancel, Stop *)

Definition Start : M error :=
  emit (EvLog LInfo "task executor manager start" []) ;;
  emit (EvGoLoop wg handleTasksLoop) ;;
  emit (EvGoLoop wg recoverMetaLoop) ;;
  ret None.

Definition Cancel : M unit :=
  emit EvCtxCancel.

Definition Stop : M unit :=
  emit EvCtxCancel ;;
  emit (EvWait executorWG) ;;
  emit (EvWait wg).

(** *** The executor map *)

Definition addTaskExecutor (executor : TaskExecutor) : M unit :=
  emit EvLock ;;
  emit (EvMapStore (proto.ID (GetTask executor)) executor) ;;
  modify (set_taskExecutors (<[proto.ID (GetTask executor) := executor]>)) ;;
  emit EvUnlock.

Definition delTaskExecutor (executor : TaskExecutor) : M unit :=
  emit EvLock ;;
  emit (EvMapDelete (proto.ID (GetTask executor))) ;;
  modify (set_taskExecutors (delete (proto.ID (GetTask executor)))) ;;
  emit EvUnlock.

Definition isExecutorStarted (taskID : Z) : M bool :=
  emit EvRLock ;;
  let* m := get in
  let ok := bool_decide (is_Some (taskExecutors m !! taskID)) in
  emit EvRUnlock ;;
  ret ok.

(** *** Signals to executors *)

Definition cancelRunningSubtaskOf (taskID : Z) : M unit :=
  emit EvRLock ;;
  let* m := get in
  match taskExecutors m !! taskID with
  | Some executor =>
      emit (EvLog LInfo "onCanceledTasks" [FInt "task-id" taskID]) ;;
      emit (EvCancelRunningSubtask executor)
  | None => ret tt
  end ;;
  emit EvRUnlock.

Definition handlePausingTask (taskID : Z) : M error :=
  emit EvRLock ;;
  emit (EvLog LInfo "handle pausing task" [FInt "task-id" taskID]) ;;
  let* m := get in
  match taskExecutors m !! taskID with
  | Some executor => emit (EvCancel executor)
  | None => ret tt
  end ;;
  emit (EvPauseSubtasks (id m) taskID) ;;
  emit EvRUnlock ;;
  ret (PauseSubtasks env taskID).

Fixpoint cancelTaskExecutors_range (tasks : list proto.Task) : M unit :=
  match tasks with
  | [] => ret tt
  | task :: tasks' =>
      emit (EvLog LInfo "cancelTasks" [FInt "task-id" (proto.ID task)]) ;;
      let* m := get in
      match taskExecutors m !! proto.ID task with
      | Some executor => emit (EvCancel executor)
      | None => ret tt
      end ;;
      cancelTaskExecutors_range tasks'
  end.

Definition cancelTaskExecutors (tasks : list proto.Task) : M unit :=
  emit EvRLock ;;
  cancelTaskExecutors_range tasks ;;
  emit EvRUnlock.

(** *** Starting an executor *)

Definition logErrAndPersist (err : Error) (taskID : Z)
    (taskExecutor : option TaskExecutor) : M unit :=
  logErr err ;;
  if match taskExecutor with
     | Some e => IsRetryableError e err
     | None => false
     end
  then emit (EvLog LError "met retryable err" [FError (Some err); FStack])
  else
    let* m := get in
    emit (EvFailSubtask (id m) taskID err) ;;
    let err1 := FailSubtask env taskID err in
    (when bool_decide (is_Some err1) then
       emit (EvLog LError "update to subtask failed" [FError err1; FStack])) ;;
    emit (EvLog LError "update error to subtask"
            [FInt "task-id" taskID; FError err1; FStack]).

Definition getStepResource (concurrency : Z) : M proto.StepResource :=
  let* m := get in
  ret {| proto.CPU := concurrency;
         proto.Mem := memShare env concurrency (totalCPU m) (totalMem m) |}.

Definition slot_alloc (task : proto.Task) : M unit :=
  emit (EvSlotAlloc task) ;;
  modify (set_slotManager (fun sm => alloc sm task)).

Definition slot_free (taskID : Z) : M unit :=
  emit (EvSlotFree taskID) ;;
  modify (set_slotManager (fun sm => free sm taskID)).

(** [defer f(); body]: the deferred call runs when the body returns and
    when it panics, and the panic goes on unwinding after it. *)
Definition defer_ (deferred : M unit) (body : M Completion) : M Completion :=
  let* c := body in
  deferred ;;
  ret c.

(** The closure [startTaskExecutor] hands to [m.executorWG.RunWithLog]. *)
Definition executorUnit (task : proto.Task) (executor : TaskExecutor)
    (resource : proto.StepResource) : M Completion :=
  defer_
    (emit (EvLog LInfo "task executor exit"
             [FInt "task-id" (proto.ID task);
              FString "type" (proto.Type_ task)]) ;;
     slot_free (proto.ID task) ;;
     delTaskExecutor executor ;;
     emit (EvClose executor))
    (emit (EvRun executor resource) ;;
     ret (completion_of (Run executor resource))).

Definition startTaskExecutor (task : proto.Task) : M unit :=
  match GetTaskExecutorFactory env (proto.Type_ task) with
  | None =>
      let err := "task type " +:+ proto.Type_ task +:+ " not found" in
      logErrAndPersist err (proto.ID task) None
  | Some factory =>
      let* m := get in
      let executor := factory (id m) task in
      emit (EvInit executor) ;;
      match Init executor with
      | Some err => logErrAndPersist err (proto.ID task) (Some executor)
      | None =>
          addTaskExecutor executor ;;
          slot_alloc task ;;
          let* resource := getStepResource (proto.Concurrency task) in
          let* m := get in
          emit (EvLog LInfo "task executor started"
                  [FInt "task-id" (proto.ID task);
                   FString "type" (proto.Type_ task);
                   FInt "remaining-slots" (availableSlots (slotManager m))]) ;;
          emit (EvGoExecutor executorWG task executor resource)
      end
  end.

(** *** One reconciliation round *)

Fixpoint handleExecutableTasks (taskInfos : list storage.TaskExecInfo) : M unit :=
  match taskInfos with
  | [] => ret tt
  | task :: taskInfos' =>
      let* m := get in
      emit (EvCanAlloc (storage.Task task)) ;;
      let '(canAlloc_, tasksNeedFree) :=
        canAlloc (slotManager m) (storage.Task task) in
      if (0 <? length tasksNeedFree)%nat then
        (* break *)
        cancelTaskExecutors tasksNeedFree
      else if negb canAlloc_ then
        (* continue *)
        emit (EvLog LDebug "no enough slots to run task"
                [FInt "task-id" (proto.ID (storage.Task task))]) ;;
        handleExecutableTasks taskInfos'
      else
        startTaskExecutor (storage.Task task) ;;
        handleExecutableTasks taskInfos'
  end.

(** The [for _, task := range tasks] loop of [handleTasks]; the accumulator
    is [executableTasks]. *)
Fixpoint handleTasks_range (tasks executableTasks : list storage.TaskExecInfo)
    : M (list storage.TaskExecInfo) :=
  match tasks with
  | [] => ret executableTasks
  | task :: tasks' =>
      let taskID := proto.ID (storage.Task task) in
      match proto.State (storage.Task task) with
      | proto.TaskStateRunning | proto.TaskStateReverting =>
          (when is_reverting (proto.State (storage.Task task)) then
             cancelRunningSubtaskOf taskID) ;;
          let* started := isExecutorStarted taskID in
          handleTasks_range tasks'
            (if negb started then executableTasks ++ [task]
             else executableTasks)
      | proto.TaskStatePausing =>
          let* err := handlePausingTask taskID in
          match err with
          | Some e => logErr e
          | None => ret tt
          end ;;
          handleTasks_range tasks' executableTasks
      | _ => handleTasks_range tasks' executableTasks
      end
  end.

Definition handleTasks : M unit :=
  let* m := get in
  emit (EvGetTaskExecInfoByExecID (id m)) ;;
  let '(tasks, err) := GetTaskExecInfoByExecID env in
  match err with
  | Some e => logErr e
  | None =>
      let* executableTasks := handleTasks_range tasks [] in
      when (0 <? length executableTasks)%nat then
        handleExecutableTasks executableTasks
  end.

End Methods.

(** ** A resource ledger *)

Module slots.

(** Modelled from the spec: the slot manager of the package (its source file
    is not part of this development), as section 4.2 describes it.  A fixed
    capacity of CPU units and the reserved tasks, kept in ascending priority
    (least important first, ties in arrival order).  [canAlloc] admits when
    the idle units cover the need; otherwise it accumulates reserved tasks
    of lower priority than the request until the freed units plus the idle
    ones cover the need, and answers with that prefix; otherwise it
    denies.  In the scenario of the spec a task of priority 1 is of lower
    priority than a task of priority 2. *)
Record slotManager : Type := {
  capacity : Z;
  executorTasks : list proto.Task
}.

Definition reservedSlots (sm : slotManager) : Z :=
  foldr (fun t acc => proto.Concurrency t + acc) 0 (executorTasks sm).

Definition idle (sm : slotManager) : Z := capacity sm - reservedSlots sm.

Fixpoint evict (lower : list proto.Task) (idle_ need freed : Z)
    (acc : list proto.Task) : option (list proto.Task) :=
  match lower with
  | [] => None
  | t :: lower' =>
      let freed' := freed + proto.Concurrency t in
      if need <=? idle_ + freed' then Some (acc ++ [t])
      else evict lower' idle_ need freed' (acc ++ [t])
  end.

Definition canAlloc (sm : slotManager) (task : proto.Task)
    : bool * list proto.Task :=
  if proto.Concurrency task <=? idle sm then (true, [])
  else
    let lower :=
      filter (fun t => proto.Priority t < proto.Priority task)
             (executorTasks sm) in
    match evict lower (idle sm) (proto.Concurrency task) 0 [] with
    | Some tasksNeedFree => (true, tasksNeedFree)
    | None => (false, [])
    end.

Fixpoint insertByPriority (task : proto.Task) (l : list proto.Task)
    : list proto.Task :=
  match l with
  | [] => [task]
  | t :: l' =>
      if proto.Priority task <? proto.Priority t then task :: l
      else t :: insertByPriority task l'
  end.

Definition alloc (sm : slotManager) (task : proto.Task) : slotManager :=
  {| capacity := capacity sm;
     executorTasks := insertByPriority task (executorTasks sm) |}.

Definition free (sm : slotManager) (taskID : Z) : slotManager :=
  {| capacity := capacity sm;
     executorTasks :=
       filter (fun t => proto.ID t ≠ taskID) (executorTasks sm) |}.

End slots.

#[export] Instance slots_SlotManager : SlotManager slots.slotManager := {
  canAlloc := slots.canAlloc;
  alloc := slots.alloc;
  free := slots.free;
  availableSlots := slots.idle
}.

(** ** Sample data: a node of 8 units *)

Module sample.

Definition task (i : Z) (ty : string) (st : proto.TaskState)
    (prio conc : Z) : proto.Task :=
  {| proto.ID := i; proto.Type_ := ty; proto.State := st;
     proto.Priority := prio; proto.Concurrency := conc |}.

Definition info (t : proto.Task) : storage.TaskExecInfo :=
  {| storage.Task := t; storage.SubtaskConcurrency := proto.Concurrency t |}.

(** An executor whose [Init] answers [init] and whose [Run] ends as [x]. *)
Definition executor (init : error) (retryable : bool) (x : RunExit)
    (t : proto.Task) : TaskExecutor :=
  {| GetTask := t; Init := init;
     IsRetryableError := fun _ => retryable;
     Run := fun _ => x |}.

(** Type tags: ["ok"] starts, ["retry"] fails [Init] with a retryable
    error, ["fatal"] fails it with a non-retryable one, ["panic"] starts
    and panics in [Run]; no other tag has a factory. *)
Definition factories (ty : proto.TaskType) : option Factory :=
  if String.eqb ty "ok" then Some (fun _ => executor None false RunFinished)
  else if String.eqb ty "retry" then
    Some (fun _ => executor (Some "busy") true RunFinished)
  else if String.eqb ty "fatal" then
    Some (fun _ => executor (Some "broken") false RunFinished)
  else if String.eqb ty "panic" then
    Some (fun _ => executor None false RunPanicked)
  else None.

(** The registry answers the fetch with [fetched]; [RecoverMeta] fails
    while the loop index is below [failures]; the context is canceled from
    loop index [canceledFrom] on. *)
Definition env (fetched : list storage.TaskExecInfo * error)
    (failures canceledFrom : nat) : Env :=
  {| RecoverMeta := fun i =>
       if (i <? failures)%nat then Some "registry unreachable" else None;
     ctxErr := fun i =>
       if (canceledFrom <=? i)%nat then Some "context canceled" else None;
     GetTaskExecInfoByExecID := fetched;
     PauseSubtasks := fun _ => None;
     FailSubtask := fun _ _ => None;
     GetTaskExecutorFactory := factories;
     TiDBServiceScope := "background";
     memShare := fun concurrency totalCPU_ totalMem_ =>
       concurrency * totalMem_ / totalCPU_ |}.

Definition taskA : proto.Task := task 1 "ok" proto.TaskStateRunning 1 6.
Definition taskB : proto.Task := task 2 "ok" proto.TaskStateRunning 2 4.
Definition taskC : proto.Task := task 3 "ok" proto.TaskStateRunning 0 2.
Definition taskD : proto.Task := task 4 "ok" proto.TaskStateReverting 1 1.
Definition taskP : proto.Task := task 5 "ok" proto.TaskStatePausing 1 1.

(** A candidate of 4 units that no eviction can help (nothing reserved is
    of lower priority than 0). *)
Definition taskX : proto.Task := task 7 "ok" proto.TaskStateRunning 0 4.
Definition taskRetry : proto.Task :=
  task 8 "retry" proto.TaskStateRunning 1 1.
Definition taskFatal : proto.Task :=
  task 9 "fatal" proto.TaskStateRunning 1 1.
Definition taskPanic : proto.Task :=
  task 10 "panic" proto.TaskStateRunning 1 1.
Definition taskUnknown : proto.Task :=
  task 11 "import" proto.TaskStateRunning 1 1.

Definition execA : TaskExecutor := executor None false RunFinished taskA.
Definition execPanic : TaskExecutor :=
  executor None false RunPanicked taskPanic.

(** The registry answers every request; nothing is fetched. *)
Definition quiet : Env := env ([], None) 0 100.

(** No executor is live. *)
Definition idleNode : Manager slots.slotManager :=
  {| taskExecutors := ∅;
     slotManager := {| slots.capacity := 8; slots.executorTasks := [] |};
     id := ":4000"; totalCPU := 8; totalMem := 1024 |}.

(** Task A (priority 1, 6 units) is running. *)
Definition nodeWithA : Manager slots.slotManager :=
  {| taskExecutors := {[ 1 := execA ]};
     slotManager := {| slots.capacity := 8; slots.executorTasks := [taskA] |};
     id := ":4000"; totalCPU := 8; totalMem := 1024 |}.

End sample.

(** ** Observations on traces *)

Definition is_RecoverMeta (e : Event) : bool :=
  match e with EvRecoverMeta _ _ => true | _ => false end.

Definition is_Sleep (e : Event) : bool :=
  match e with EvSleep _ => true | _ => false end.

Fixpoint count (p : Event -> bool) (tr : list Event) : nat :=
  match tr with
  | [] => O
  | e :: tr' => ((if p e then 1 else 0) + count p tr')%nat
  end.

(** The executors that receive [Cancel], in order. *)
Fixpoint canceled (tr : list Event) : list TaskExecutor :=
  match tr with
  | [] => []
  | EvCancel e :: tr' => e :: canceled tr'
  | _ :: tr' => canceled tr'
  end.

(** The tasks whose executor unit is launched, in order. *)
Fixpoint launched (tr : list Event) : list proto.Task :=
  match tr with
  | [] => []
  | EvGoExecutor _ task _ _ :: tr' => task :: launched tr'
  | _ :: tr' => launched tr'
  end.

Definition is_registry_write (e : Event) : bool :=
  match e with
  | EvRecoverMeta _ _ | EvPauseSubtasks _ _ | EvFailSubtask _ _ _ => true
  | _ => false
  end.

(** The requests that change the registry, in order. *)
Definition registryWrites (tr : list Event) : list Event :=
  List.filter is_registry_write tr.

(** [m.mu] as the goroutine that runs the trace holds it. *)
Inductive LockState : Type := Unlocked | ReadLocked | WriteLocked.

(** One event against the lock: [None] when the lock is taken while held,
    released while not held, or the executor map is written without the write
    lock. *)
Definition lockStep (s : LockState) (e : Event) : option LockState :=
  match e with
  | EvLock => match s with Unlocked => Some WriteLocked | _ => None end
  | EvUnlock => match s with WriteLocked => Some Unlocked | _ => None end
  | EvRLock => match s with Unlocked => Some ReadLocked | _ => None end
  | EvRUnlock => match s with ReadLocked => Some Unlocked | _ => None end
  | EvMapStore _ _ | EvMapDelete _ =>
      match s with WriteLocked => Some WriteLocked | _ => None end
  | _ => Some s
  end.

Fixpoint lockRun (s : LockState) (tr : list Event) : option LockState :=
  match tr with
  | [] => Some s
  | e :: tr' =>
      match lockStep s e with
      | Some s' => lockRun s' tr'
      | None => None
      end
  end.

(** The writes of the executor map a trace records, replayed on a map. *)
Fixpoint mapWrites (tr : list Event) (execs : gmap Z TaskExecutor)
    : gmap Z TaskExecutor :=
  match tr with
  | [] => execs
  | EvMapStore key e :: tr' => mapWrites tr' (<[key := e]> execs)
  | EvMapDelete key :: tr' => mapWrites tr' (delete key execs)
  | _ :: tr' => mapWrites tr' execs
  end.

(** An event that neither touches the lock nor writes the map. *)
Definition is_lock_free (e : Event) : bool :=
  match e with
  | EvLock | EvUnlock | EvRLock | EvRUnlock
  | EvMapStore _ _ | EvMapDelete _ => false
  | _ => true
  end.

(** A unit of work is launched on the wait group that [Stop] joins for it:
    the loops on [m.wg], the executor units on [m.executorWG]. *)
Definition is_well_grouped (e : Event) : bool :=
  match e with
  | EvGoLoop wg _ => true
  | EvGoLoop executorWG _ => false
  | EvGoExecutor executorWG _ _ _ => true
  | EvGoExecutor wg _ _ _ => false
  | _ => true
  end.

Section Observations.

Context {SM : Type} `{!SlotManager SM}.
Variable env : Env.

(** What one failed attempt at loop index [i] leaves in the trace. *)
Definition failedAttempt (m : Manager SM) (i : nat) (e : Error) : list Event :=
  EvRecoverMeta (id m) (TiDBServiceScope env) ::
  (if (i mod 10 =? 0)%nat
   then [EvLog LWarn "recover meta failed"
           [FString "scope" (TiDBServiceScope env);
            FInt "retry times" (Z.of_nat i);
            FError (Some e)]]
   else []) ++
  [EvSleep retrySQLInterval].

(** [k] failed attempts during which the context stays live. *)
Definition failsUntil (i k : nat) : Prop :=
  ∀ j, (j < k)%nat →
    is_Some (RecoverMeta env (i + j)) ∧ ctxErr env (i + j) = None.

(** What [cancelTaskExecutors] does for one task of its argument. *)
Definition cancelSignal (execs : gmap Z TaskExecutor) (task : proto.Task)
    : list Event :=
  EvLog LInfo "cancelTasks" [FInt "task-id" (proto.ID task)] ::
  match execs !! proto.ID task with
  | Some executor => [EvCancel executor]
  | None => []
  end.

(** The round gets past every candidate of [pre]: none of them makes
    [canAlloc] ask for evictions. *)
Fixpoint passes (pre : list storage.TaskExecInfo) (m : Manager SM) : bool :=
  match pre with
  | [] => true
  | task :: pre' =>
      match canAlloc (slotManager m) (storage.Task task) with
      | (ok, []) =>
          passes pre'
            (if ok then after (startTaskExecutor env (storage.Task task) m)
             else m)
      | (_, _ :: _) => false
      end
  end.

(** What [logErrAndPersist] leaves in the trace. *)
Definition persisted (m : Manager SM) (err : Error) (taskID : Z)
    (taskExecutor : option TaskExecutor) : list Event :=
  EvLog LError "task manager met error" [FError (Some err); FStack] ::
  if match taskExecutor with
     | Some e => IsRetryableError e err
     | None => false
     end
  then [EvLog LError "met retryable err" [FError (Some err); FStack]]
  else
    EvFailSubtask (id m) taskID err ::
    (if bool_decide (is_Some (FailSubtask env taskID err))
     then [EvLog LError "update to subtask failed"
             [FError (FailSubtask env taskID err); FStack]]
     else []) ++
    [EvLog LError "update error to subtask"
       [FInt "task-id" taskID; FError (FailSubtask env taskID err); FStack]].

(** The Manager after a successful start of [executor] for [task]. *)
Definition started (m : Manager SM) (task : proto.Task)
    (executor : TaskExecutor) : Manager SM :=
  set_slotManager (fun sm => alloc sm task)
    (set_taskExecutors (<[proto.ID (GetTask executor) := executor]>) m).

(** The grant [getStepResource] computes for [task]. *)
Definition grant (m : Manager SM) (task : proto.Task) : proto.StepResource :=
  {| proto.CPU := proto.Concurrency task;
     proto.Mem :=
       memShare env (proto.Concurrency task) (totalCPU m) (totalMem m) |}.

(** What the loop of [handleTasks] does for one fetched task. *)
Definition classified (m : Manager SM) (task : storage.TaskExecInfo)
    : list Event :=
  let taskID := proto.ID (storage.Task task) in
  match proto.State (storage.Task task) with
  | proto.TaskStateRunning => [EvRLock; EvRUnlock]
  | proto.TaskStateReverting =>
      EvRLock ::
      match taskExecutors m !! taskID with
      | Some executor =>
          [EvLog LInfo "onCanceledTasks" [FInt "task-id" taskID];
           EvCancelRunningSubtask executor]
      | None => []
      end ++ [EvRUnlock; EvRLock; EvRUnlock]
  | proto.TaskStatePausing =>
      [EvRLock; EvLog LInfo "handle pausing task" [FInt "task-id" taskID]] ++
      match taskExecutors m !! taskID with
      | Some executor => [EvCancel executor]
      | None => []
      end ++
      [EvPauseSubtasks (id m) taskID; EvRUnlock] ++
      match PauseSubtasks env taskID with
      | Some e =>
          [EvLog LError "task manager met error" [FError (Some e); FStack]]
      | None => []
      end
  | _ => []
  end.

(** The fetched task becomes a start-candidate. *)
Definition candidate (m : Manager SM) (task : storage.TaskExecInfo) : bool :=
  match proto.State (storage.Task task) with
  | proto.TaskStateRunning | proto.TaskStateReverting =>
      negb (bool_decide
              (is_Some (taskExecutors m !! proto.ID (storage.Task task))))
  | _ => false
  end.

(** Every live executor sits under the id of its own task. *)
Definition keyed (m : Manager SM) : Prop :=
  ∀ taskID executor,
    taskExecutors m !! taskID = Some executor →
    proto.ID (GetTask executor) = taskID.

(** The computation takes and releases the lock properly, writes the map
    only under the write lock, and its trace accounts for every change of
    the map. *)
Definition disciplined {A} (m : Manager SM) (r : A * Manager SM * list Event)
    : Prop :=
  lockRun Unlocked (trace r) = Some Unlocked ∧
  taskExecutors (after r) = mapWrites (trace r) (taskExecutors m).

End Observations.

(** ** Construction, metadata initialisation and the two loops *)

(** [int64(x)]: the conversion wraps. *)
Definition int64 (x : Z) : Z := (x + 2 ^ 63) `mod` 2 ^ 64 - 2 ^ 63.

(** What [NewManager] reads from the host and from other packages. *)
Record Host : Type := {
  (** [memory.MemTotal()]. *)
  MemTotal : Z * error;
  (** [cpu.GetCPUCount()]. *)
  GetCPUCount : Z;
  (** [intest.InTest]. *)
  InTest : bool;
  (** [units.BytesSize(float64(totalMem))]. *)
  BytesSize : Z -> string
}.

(** The calls of [InitMeta] and of the loops that the methods above do not
    make; [Core] is a call a method above makes. *)
Inductive LoopEvent : Type :=
| Core (e : Event)
| EvInitMeta (id scope : string)
| EvNewTicker (d : Z).

(** What a loop blocked in its [select] receives: the context is done, or the
    ticker fires; a tick comes with the answers the collaborators give during
    the work it triggers. *)
Inductive Wakeup : Type :=
| CtxDone
| Tick (env : Env).

(** Where a loop is when the wake-ups given to it are used up. *)
Inductive LoopEnd : Type :=
| LoopReturned
| LoopSelecting.

Section Lifecycle.

Context {SM : Type} `{!SlotManager SM}.

(** The Manager [NewManager] builds, with the fields its logger carries. *)
Record Built : Type := {
  manager : Manager SM;
  loggerFields : list Field
}.

(** [newSlotManager] is a function of the slot manager's file; the context
    and its cancel function are not part of [Manager] here. *)
Definition NewManager (host : Host) (newSlotManager : Z -> SM) (id_ : string)
    : (Built + Error) * list Event :=
  let fields := if InTest host then [FString "server-id" id_] else [] in
  match MemTotal host with
  | (_, Some err) => (inr err, [])
  | (totalMem_, None) =>
      let totalCPU_ := GetCPUCount host in
      if bool_decide (totalCPU_ ≤ 0 ∨ totalMem_ ≤ 0) then
        (inr ("invalid cpu or memory, cpu: " +:+ pretty totalCPU_ +:+
              ", memory: " +:+ pretty totalMem_), [])
      else
        (inl {| manager :=
                  {| taskExecutors := ∅;
                     slotManager := newSlotManager totalCPU_;
                     id := id_;
                     totalCPU := totalCPU_;
                     totalMem := int64 totalMem_ |};
                loggerFields := fields |},
         [EvLog LInfo "build task executor manager"
            (fields ++
             [FInt "total-cpu" totalCPU_;
              FString "total-mem" (BytesSize host totalMem_)])])
  end.

(** Methods that make the further calls. *)
Definition MX (A : Type) : Type :=
  Manager SM -> A * Manager SM * list LoopEvent.

Definition retX {A} (a : A) : MX A := fun m => (a, m, []).

Definition bindX {A B} (c : MX A) (k : A -> MX B) : MX B :=
  fun m =>
    let '(a, m1, tr1) := c m in
    let '(b, m2, tr2) := k a m1 in
    (b, m2, tr1 ++ tr2).

Definition emitX (e : LoopEvent) : MX unit := fun m => (tt, m, [e]).
Definition getX : MX (Manager SM) := fun m => (m, m, []).

(** A call of one of the methods above. *)
Definition call {A} (c : M SM A) : MX A :=
  fun m => let '(a, m1, tr) := c m in (a, m1, Core <$> tr).

(** The fields no method writes. *)
Definition same_node (m m' : Manager SM) : Prop :=
  id m' = id m ∧ totalCPU m' = totalCPU m ∧ totalMem m' = totalMem m.

Definition valueX {A} (r : A * Manager SM * list LoopEvent) : A := r.1.1.
Definition afterX {A} (r : A * Manager SM * list LoopEvent) : Manager SM :=
  r.1.2.
Definition traceX {A} (r : A * Manager SM * list LoopEvent) : list LoopEvent :=
  r.2.

End Lifecycle.

Arguments Built SM : clear implicits.
Arguments MX SM A : clear implicits.

Declare Scope loop_scope.
Delimit Scope loop_scope with loop.
Notation "'let*' x ':=' c 'in' k" := (bindX c (fun x => k))
  (at level 10, x name, c at level 100, k at level 200) : loop_scope.
Notation "c ;; k" := (bindX c (fun _ => k))
  (at level 100, k at level 200, right associativity) : loop_scope.
Notation "'when' b 'then' c" := (if b then c else retX tt)
  (at level 10, b at level 100, c at level 200) : loop_scope.

Module loops.

Section Loops.

Context {SM : Type} `{!SlotManager SM}.

Local Open Scope loop_scope.
Local Abbreviation MX := (MX SM).

(** The loop of [InitMeta]; [answers i] is what [m.taskTable.InitMeta]
    answers to the call of loop index [i]. *)
Fixpoint InitMeta_loop (answers : nat -> error) (env : Env)
    (remaining i : nat) (err : error) : MX error :=
  match remaining with
  | O => retX err
  | S remaining' =>
      let* m := getX in
      emitX (EvInitMeta (id m) (TiDBServiceScope env)) ;;
      match answers i with
      | None => retX None
      | Some e =>
          match ctxErr env i with
          | Some err1 => retX (Some err1)
          | None =>
              (when (i mod 10 =? 0)%nat then
                 emitX (Core (EvLog LWarn "start manager failed"
                                [FString "scope" (TiDBServiceScope env);
                                 FInt "retry times" (Z.of_nat i);
                                 FError (Some e)]))) ;;
              emitX (Core (EvSleep retrySQLInterval)) ;;
              InitMeta_loop answers env remaining' (S i) (Some e)
          end
      end
  end.

Definition InitMeta (answers : nat -> error) (env : Env) : MX error :=
  InitMeta_loop answers env retrySQLTimes 0 None.

(** The [for { select ... }] of [handleTasksLoop], along the wake-ups it
    receives.  No call of the model panics, so the deferred
    [tidbutil.Recover] has nothing to recover. *)
Fixpoint handleTasksLoop_for (wakeups : list Wakeup) : MX LoopEnd :=
  match wakeups with
  | [] => retX LoopSelecting
  | CtxDone :: _ =>
      emitX (Core (EvLog LInfo "handle tasks loop done" [])) ;;
      retX LoopReturned
  | Tick env :: wakeups' =>
      call (handleTasks env) ;;
      handleTasksLoop_for wakeups'
  end.

Definition handleTasksLoop (wakeups : list Wakeup) : MX LoopEnd :=
  emitX (EvNewTicker DefaultCheckInterval) ;;
  handleTasksLoop_for wakeups.

Fixpoint recoverMetaLoop_for (wakeups : list Wakeup) : MX LoopEnd :=
  match wakeups with
  | [] => retX LoopSelecting
  | CtxDone :: _ =>
      emitX (Core (EvLog LInfo "recoverMetaLoop done" [])) ;;
      retX LoopReturned
  | Tick env :: wakeups' =>
      let* err := call (recoverMeta env) in
      match err with
      | Some e => call (logErr e)   (* continue *)
      | None => retX tt
      end ;;
      recoverMetaLoop_for wakeups'
  end.

Definition recoverMetaLoop (wakeups : list Wakeup) : MX LoopEnd :=
  emitX (EvNewTicker recoverMetaInterval) ;;
  recoverMetaLoop_for wakeups.

End Loops.

End loops.

(** ** Further observations on traces *)





(** [InitMeta] seen from [recoverMeta]: the call and the message differ. *)
Definition asInitMeta (e : Event) : LoopEvent :=
  match e with
  | EvRecoverMeta id_ scope => EvInitMeta id_ scope
  | EvLog LWarn msg fields =>
      Core (EvLog LWarn
              (if String.eqb msg "recover meta failed"
               then "start manager failed" else msg)
              fields)
  | _ => Core e
  end.

Definition pauseRequest (e : Event) : option Z :=
  match e with EvPauseSubtasks _ taskID => Some taskID | _ => None end.

Definition subtaskCancel (e : Event) : option TaskExecutor :=
  match e with EvCancelRunningSubtask executor => Some executor | _ => None end.

Definition reservation (e : Event) : option proto.Task :=
  match e with EvSlotAlloc task => Some task | _ => None end.


Definition is_pausing (s : proto.TaskState) : bool :=
  match s with proto.TaskStatePausing => true | _ => false end.

(** The states [handleTasks] acts on. *)
Definition is_handled (s : proto.TaskState) : bool :=
  match s with
  | proto.TaskStateRunning | proto.TaskStateReverting
  | proto.TaskStatePausing => true
  | _ => false
  end.

(** The ticks a loop receives before its context is done. *)
Fixpoint ticksBeforeDone (wakeups : list Wakeup) : list Env :=
  match wakeups with
  | [] => []
  | CtxDone :: _ => []
  | Tick env :: wakeups' => env :: ticksBeforeDone wakeups'
  end.

Definition is_Log (e : Event) : bool :=
  match e with EvLog _ _ _ => true | _ => false end.

Definition is_executable (s : proto.TaskState) : bool :=
  match s with
  | proto.TaskStateRunning | proto.TaskStateReverting => true
  | _ => false
  end.

(** The calls the admission step can make. *)
Definition is_admission_event (e : Event) : bool :=
  match e with
  | EvLog _ _ _ | EvRLock | EvRUnlock | EvLock | EvUnlock | EvMapStore _ _
  | EvFailSubtask _ _ _ | EvCanAlloc _ | EvSlotAlloc _ | EvInit _
  | EvCancel _ | EvGoExecutor _ _ _ _ => true
  | _ => false
  end.

(** The calls a round can make: those of the admission step, the fetch, and
    the signals of the loop over the fetched tasks. *)
Definition is_round_event (e : Event) : bool :=
  match e with
  | EvGetTaskExecInfoByExecID _ | EvPauseSubtasks _ _
  | EvCancelRunningSubtask _ => true
  | _ => is_admission_event e
  end.

Definition coreOf (e : LoopEvent) : option Event :=
  match e with Core e' => Some e' | _ => None end.

(** Whether the context is done among the wake-ups. *)
Fixpoint doneAmong (wakeups : list Wakeup) : bool :=
  match wakeups with
  | [] => false
  | CtxDone :: _ => true
  | Tick _ :: wakeups' => doneAmong wakeups'
  end.

(** * Properties *)

Lemma count_app p (t1 t2 : list Event) :
  count p (t1 ++ t2) = (count p t1 + count p t2)%nat.
Proof.
  induction t1 as [|e t1 IH]; simpl; [done|]. rewrite IH. lia.
Qed.

Section MonadFacts.

Context {SM : Type} `{!SlotManager SM}.

Lemma run_bind {A B} (c : M SM A) (k : A -> M SM B) (m : Manager SM) :
  bind c k m =
  (value (k (value (c m)) (after (c m))),
   after (k (value (c m)) (after (c m))),
   trace (c m) ++ trace (k (value (c m)) (after (c m)))).
Proof.
  unfold bind, value, after, trace.
  destruct (c m) as [[a m1] t1]; simpl.
  destruct (k a m1) as [[b m2] t2]; reflexivity.
Qed.

Lemma run_eta {A} (r : A * Manager SM * list Event) :
  r = (value r, after r, trace r).
Proof. by destruct r as [[a m] t]. Qed.

Lemma bind_ret_l {A B} (a : A) (k : A -> M SM B) (m : Manager SM) :
  bind (ret a) k m = k a m.
Proof. rewrite run_bind. cbn. symmetry. apply run_eta. Qed.

Lemma bind_ret_r {A} (c : M SM A) (m : Manager SM) :
  bind c ret m = c m.
Proof. rewrite run_bind. cbn. rewrite app_nil_r. symmetry. apply run_eta. Qed.

Lemma bind_assoc {A B C} (c : M SM A) (k : A -> M SM B) (h : B -> M SM C)
    (m : Manager SM) :
  bind (bind c k) h m = bind c (fun a => bind (k a) h) m.
Proof.
  rewrite !run_bind. cbn [value after trace fst snd].
  rewrite ?run_bind. cbn [value after trace fst snd].
  by rewrite app_assoc.
Qed.

End MonadFacts.

(** The branches of [logErrAndPersist]: retryable or not, and whether the
    write of the failure itself failed. *)
Ltac persisted_cases :=
  unfold persisted; repeat case_match; reflexivity.

(** Run the straight-line prefix of a method. *)
Ltac run_method :=
  rewrite ?run_bind; cbn [get emit ret modify value after trace fst snd].

(** ** Identity recovery *)

Section RecoverMeta.

Context {SM : Type} `{!SlotManager SM}.
Variable env : Env.

Lemma recoverMeta_loop_S remaining i err (m : Manager SM) :
  recoverMeta_loop env (S remaining) i err m =
  match RecoverMeta env i with
  | None => (None, m, [EvRecoverMeta (id m) (TiDBServiceScope env)])
  | Some e =>
      match ctxErr env i with
      | Some err1 =>
          (Some err1, m, [EvRecoverMeta (id m) (TiDBServiceScope env)])
      | None =>
          let r := recoverMeta_loop env remaining (S i) (Some e) m in
          (value r, after r, failedAttempt env m i e ++ trace r)
      end
  end.
Proof.
  unfold failedAttempt. cbn [recoverMeta_loop].
  run_method.
  destruct (RecoverMeta env i) as [e|]; [|reflexivity].
  destruct (ctxErr env i) as [err1|]; [reflexivity|].
  rewrite !run_bind.
  destruct (i mod 10 =? 0)%nat; cbn [get emit ret value after trace fst snd];
    rewrite ?run_bind; cbn [get emit ret value after trace fst snd app];
    reflexivity.
Qed.

Lemma failedAttempt_attempts (m : Manager SM) i e :
  count is_RecoverMeta (failedAttempt env m i e) = 1%nat.
Proof. unfold failedAttempt. by destruct (i mod 10 =? 0)%nat. Qed.

Lemma failedAttempt_sleeps (m : Manager SM) i e :
  count is_Sleep (failedAttempt env m i e) = 1%nat.
Proof. unfold failedAttempt. by destruct (i mod 10 =? 0)%nat. Qed.

Lemma failedAttempt_interval (m : Manager SM) i e d :
  EvSleep d ∈ failedAttempt env m i e → d = retrySQLInterval.
Proof.
  unfold failedAttempt. destruct (i mod 10 =? 0)%nat; simpl;
    rewrite ?elem_of_cons, elem_of_nil; intuition congruence.
Qed.

(** The loop leaves the Manager as it found it, never tries more often than
    it has iterations left, and sleeps only for [retrySQLInterval]. *)
Lemma recoverMeta_loop_bounds remaining i err (m : Manager SM) :
  let r := recoverMeta_loop env remaining i err m in
  after r = m ∧
  (count is_RecoverMeta (trace r) ≤ remaining)%nat ∧
  (count is_Sleep (trace r) ≤ count is_RecoverMeta (trace r))%nat ∧
  (∀ d, EvSleep d ∈ trace r → d = retrySQLInterval).
Proof.
  revert i err. induction remaining as [|remaining IH]; intros i err.
  - cbn. repeat split; [lia..|]. intros d Hd. by apply elem_of_nil in Hd.
  - rewrite recoverMeta_loop_S.
    destruct (RecoverMeta env i) as [e|].
    + destruct (ctxErr env i) as [err1|].
      * cbn. repeat split; [lia..|].
        intros d Hd. apply list_elem_of_singleton in Hd. discriminate.
      * destruct (IH (S i) (Some e)) as (Hm & Hn & Hs & Hd).
        cbn [value after trace fst snd].
        rewrite !count_app, failedAttempt_attempts, failedAttempt_sleeps.
        repeat split; [done|lia..|].
        intros d [Hin|Hin]%elem_of_app; [|by apply Hd].
        by eapply failedAttempt_interval.
    + cbn. repeat split; [lia..|].
      intros d Hd. apply list_elem_of_singleton in Hd. discriminate.
Qed.

Lemma failsUntil_S i k :
  failsUntil env i (S k) →
  is_Some (RecoverMeta env i) ∧ ctxErr env i = None ∧ failsUntil env (S i) k.
Proof.
  intros Hf. destruct (Hf O) as [H0 H1]; [lia|].
  rewrite Nat.add_0_r in H0, H1. split; [done|]. split; [done|].
  intros j Hj. destruct (Hf (S j)) as [H2 H3]; [lia|].
  by rewrite Nat.add_succ_r in H2, H3.
Qed.

(** After [k] failures the attempt of index [i + k] succeeds. *)
Lemma recoverMeta_loop_success remaining i k err (m : Manager SM) :
  (k < remaining)%nat → failsUntil env i k → RecoverMeta env (i + k) = None →
  let r := recoverMeta_loop env remaining i err m in
  value r = None ∧
  count is_RecoverMeta (trace r) = S k ∧ count is_Sleep (trace r) = k.
Proof.
  revert i k err. induction remaining as [|remaining IH];
    intros i k err Hk Hf Hok; [lia|].
  rewrite recoverMeta_loop_S. destruct k as [|k].
  - rewrite Nat.add_0_r in Hok. by rewrite Hok.
  - apply failsUntil_S in Hf as ([e He] & Hc & Hf). rewrite He, Hc.
    rewrite Nat.add_succ_r in Hok.
    destruct (IH (S i) k (Some e)) as (Hv & Hn & Hs); [lia|done..|].
    cbn [value after trace fst snd].
    rewrite !count_app, failedAttempt_attempts, failedAttempt_sleeps.
    repeat split; [done|lia..].
Qed.

(** After [k] failures the attempt of index [i + k] fails too and the
    context is found canceled. *)
Lemma recoverMeta_loop_canceled remaining i k err err1 (m : Manager SM) :
  (k < remaining)%nat → failsUntil env i k →
  is_Some (RecoverMeta env (i + k)) → ctxErr env (i + k) = Some err1 →
  let r := recoverMeta_loop env remaining i err m in
  value r = Some err1 ∧
  count is_RecoverMeta (trace r) = S k ∧ count is_Sleep (trace r) = k.
Proof.
  revert i k err. induction remaining as [|remaining IH];
    intros i k err Hk Hf [e0 Hfail] Hctx; [lia|].
  rewrite recoverMeta_loop_S. destruct k as [|k].
  - rewrite Nat.add_0_r in Hfail, Hctx. by rewrite Hfail, Hctx.
  - apply failsUntil_S in Hf as ([e He] & Hc & Hf). rewrite He, Hc.
    rewrite Nat.add_succ_r in Hfail, Hctx.
    destruct (IH (S i) k (Some e)) as (Hv & Hn & Hs); [lia|done|eauto|done|].
    cbn [value after trace fst snd].
    rewrite !count_app, failedAttempt_attempts, failedAttempt_sleeps.
    repeat split; [done|lia..].
Qed.

(** Every iteration fails with the context live. *)
Lemma recoverMeta_loop_exhausted remaining i err (m : Manager SM) :
  failsUntil env i remaining →
  let r := recoverMeta_loop env remaining i err m in
  value r =
    match remaining with
    | O => err
    | S n => RecoverMeta env (i + n)
    end ∧
  count is_RecoverMeta (trace r) = remaining ∧
  count is_Sleep (trace r) = remaining.
Proof.
  revert i err. induction remaining as [|remaining IH]; intros i err Hf.
  - by cbn.
  - rewrite recoverMeta_loop_S.
    apply failsUntil_S in Hf as ([e He] & Hc & Hf). rewrite He, Hc.
    destruct (IH (S i) (Some e) Hf) as (Hv & Hn & Hs).
    cbn [value after trace fst snd].
    rewrite !count_app, failedAttempt_attempts, failedAttempt_sleeps.
    repeat split; [|lia..].
    rewrite Hv. destruct remaining as [|n].
    + by rewrite Nat.add_0_r.
    + by rewrite Nat.add_succ_r.
Qed.

End RecoverMeta.

(** All 30 attempts fail: the error of the last one, after 30 attempts and 30
    sleeps. *)
Example recoverMeta_exhausted :
  let r := recoverMeta (sample.env ([], None) 30 100) sample.idleNode in
  value r = Some "registry unreachable" ∧
  count is_RecoverMeta (trace r) = 30%nat ∧ count is_Sleep (trace r) = 30%nat.
Proof. by vm_compute. Qed.

(** The context is canceled during the sixth attempt. *)
Example recoverMeta_canceled :
  let r := recoverMeta (sample.env ([], None) 30 5) sample.idleNode in
  value r = Some "context canceled" ∧
  count is_RecoverMeta (trace r) = 6%nat ∧ count is_Sleep (trace r) = 5%nat.
Proof. by vm_compute. Qed.

(** The warning is logged at loop indices 0, 10 and 20 only. *)
Example recoverMeta_warnings :
  let r := recoverMeta (sample.env ([], None) 30 100) sample.idleNode in
  count (fun e => match e with EvLog LWarn _ _ => true | _ => false end)
    (trace r) = 3%nat.
Proof. by vm_compute. Qed.

(** C8. One invocation of [recoverMeta] tries the registry upsert at most 30
    times and sleeps 500 ms after a failed attempt.  It returns nil as soon as
    an attempt succeeds (after [k < 30] failures: [k + 1] attempts and [k]
    sleeps, so also on the 30th attempt after 29 failures); it returns the
    error of the context when the context is found canceled after a failed
    attempt; and when all 30 attempts fail it returns the error of the last
    one.  The Manager itself is left unchanged. *)
Theorem recoverMeta_retries {SM : Type} `{!SlotManager SM}
    (env : Env) (m : Manager SM) :
  let r := recoverMeta env m in
  after r = m ∧
  (count is_RecoverMeta (trace r) ≤ 30)%nat ∧
  (∀ d, EvSleep d ∈ trace r → d = 500 * Millisecond) ∧
  (∀ k, (k < 30)%nat → failsUntil env 0 k →
     (RecoverMeta env k = None →
        value r = None ∧
        count is_RecoverMeta (trace r) = S k ∧ count is_Sleep (trace r) = k) ∧
     (∀ err1, is_Some (RecoverMeta env k) → ctxErr env k = Some err1 →
        value r = Some err1 ∧
        count is_RecoverMeta (trace r) = S k ∧ count is_Sleep (trace r) = k)) ∧
  (failsUntil env 0 30 →
     value r = RecoverMeta env 29 ∧
     count is_RecoverMeta (trace r) = 30%nat ∧
     count is_Sleep (trace r) = 30%nat).
Proof.
  intros r. subst r. unfold recoverMeta.
  change retrySQLTimes with 30%nat.
  destruct (recoverMeta_loop_bounds env 30 0 None m) as (Hm & Hn & _ & Hd).
  split; [done|]. split; [done|]. split; [exact Hd|]. split.
  - intros k Hk Hf. split.
    + intros Hok. by apply recoverMeta_loop_success.
    + intros err1 Hfail Hctx. by apply recoverMeta_loop_canceled.
  - intros Hf. exact (recoverMeta_loop_exhausted env 30 0 None m Hf).
Qed.

Lemma sample_failsUntil fetched failures canceledFrom k :
  (k ≤ failures)%nat → (k ≤ canceledFrom)%nat →
  failsUntil (sample.env fetched failures canceledFrom) 0 k.
Proof.
  intros Hk Hc j Hj. cbn -[Nat.ltb Nat.leb].
  destruct (Nat.ltb_spec j failures); [|lia].
  destruct (Nat.leb_spec canceledFrom j); [lia|]. split; [eauto|done].
Qed.

(** The scenario of the spec: 29 failures, then success on the 30th attempt. *)
Lemma recoverMeta_retries_witness :
  let env := sample.env ([], None) 29 100 in
  failsUntil env 0 29 ∧ RecoverMeta env 29 = None ∧
  value (recoverMeta env sample.idleNode) = None ∧
  count is_RecoverMeta (trace (recoverMeta env sample.idleNode)) = 30%nat.
Proof.
  intros env.
  assert (Hf : failsUntil env 0 29) by (apply sample_failsUntil; lia).
  split; [exact Hf|]. split; [reflexivity|].
  destruct (recoverMeta_retries env sample.idleNode) as (_ & _ & _ & Hk & _).
  destruct (Hk 29%nat) as [Hok _]; [lia|exact Hf|].
  destruct Hok as (Hv & Hn & _); [reflexivity|]. by split.
Defined.

(** ** What the helper methods do *)

Section Helpers.

Context {SM : Type} `{!SlotManager SM}.
Variable env : Env.

Lemma cancelRunningSubtaskOf_run taskID (m : Manager SM) :
  cancelRunningSubtaskOf taskID m =
  (tt, m,
   EvRLock ::
   match taskExecutors m !! taskID with
   | Some executor =>
       [EvLog LInfo "onCanceledTasks" [FInt "task-id" taskID];
        EvCancelRunningSubtask executor]
   | None => []
   end ++ [EvRUnlock]).
Proof.
  unfold cancelRunningSubtaskOf. run_method.
  by destruct (taskExecutors m !! taskID).
Qed.

Lemma handlePausingTask_run taskID (m : Manager SM) :
  handlePausingTask env taskID m =
  (PauseSubtasks env taskID, m,
   [EvRLock; EvLog LInfo "handle pausing task" [FInt "task-id" taskID]] ++
   match taskExecutors m !! taskID with
   | Some executor => [EvCancel executor]
   | None => []
   end ++ [EvPauseSubtasks (id m) taskID; EvRUnlock]).
Proof.
  unfold handlePausingTask. run_method.
  by destruct (taskExecutors m !! taskID).
Qed.

Lemma isExecutorStarted_run taskID (m : Manager SM) :
  isExecutorStarted taskID m =
  (bool_decide (is_Some (taskExecutors m !! taskID)), m, [EvRLock; EvRUnlock]).
Proof. reflexivity. Qed.

Lemma cancelTaskExecutors_range_run tasks (m : Manager SM) :
  cancelTaskExecutors_range tasks m =
  (tt, m, flat_map (cancelSignal (taskExecutors m)) tasks).
Proof.
  induction tasks as [|task tasks IH]; [reflexivity|].
  cbn [cancelTaskExecutors_range flat_map]. run_method.
  unfold cancelSignal at 1.
  destruct (taskExecutors m !! proto.ID task);
    cbn [emit ret value after trace fst snd]; rewrite IH; reflexivity.
Qed.

Lemma cancelTaskExecutors_run tasks (m : Manager SM) :
  cancelTaskExecutors tasks m =
  (tt, m,
   EvRLock :: flat_map (cancelSignal (taskExecutors m)) tasks ++ [EvRUnlock]).
Proof.
  unfold cancelTaskExecutors. rewrite !run_bind.
  cbn [emit value after trace fst snd].
  by rewrite cancelTaskExecutors_range_run.
Qed.

Lemma canceled_app t1 t2 : canceled (t1 ++ t2) = canceled t1 ++ canceled t2.
Proof.
  induction t1 as [|e t1 IH]; [reflexivity|].
  destruct e; cbn [canceled app]; by rewrite ?IH.
Qed.

Lemma launched_app t1 t2 : launched (t1 ++ t2) = launched t1 ++ launched t2.
Proof.
  induction t1 as [|e t1 IH]; [reflexivity|].
  destruct e; cbn [launched app]; by rewrite ?IH.
Qed.

(** [Cancel] reaches the live executors of the given tasks, and no other. *)
Lemma canceled_cancelSignals (execs : gmap Z TaskExecutor) tasks :
  canceled (flat_map (cancelSignal execs) tasks) =
  omap (fun task => execs !! proto.ID task) tasks.
Proof.
  induction tasks as [|task tasks IH]; [reflexivity|].
  cbn [flat_map]. rewrite canceled_app, IH.
  unfold cancelSignal. simpl. by destruct (execs !! proto.ID task).
Qed.

Lemma launched_cancelSignals (execs : gmap Z TaskExecutor) tasks :
  launched (flat_map (cancelSignal execs) tasks) = [].
Proof.
  induction tasks as [|task tasks IH]; [reflexivity|].
  cbn [flat_map]. rewrite launched_app, IH.
  unfold cancelSignal. by destruct (execs !! proto.ID task).
Qed.

End Helpers.

(** ** Starting an executor *)

Section StartTaskExecutor.

Context {SM : Type} `{!SlotManager SM}.
Variable env : Env.

Lemma logErrAndPersist_run err taskID taskExecutor (m : Manager SM) :
  logErrAndPersist env err taskID taskExecutor m =
  (tt, m, persisted env m err taskID taskExecutor).
Proof.
  unfold logErrAndPersist, persisted, logErr. rewrite run_bind.
  cbn [emit value after trace fst snd].
  destruct (match taskExecutor with
            | Some e => IsRetryableError e err
            | None => false
            end); [reflexivity|].
  run_method.
  by destruct (bool_decide _).
Qed.

Lemma startTaskExecutor_run task (m : Manager SM) :
  startTaskExecutor env task m =
  match GetTaskExecutorFactory env (proto.Type_ task) with
  | None =>
      (tt, m,
       persisted env m ("task type " +:+ proto.Type_ task +:+ " not found")
         (proto.ID task) None)
  | Some factory =>
      let executor := factory (id m) task in
      match Init executor with
      | Some err =>
          (tt, m,
           EvInit executor ::
           persisted env m err (proto.ID task) (Some executor))
      | None =>
          (tt, started m task executor,
           [EvInit executor;
            EvLock; EvMapStore (proto.ID (GetTask executor)) executor;
            EvUnlock;
            EvSlotAlloc task;
            EvLog LInfo "task executor started"
              [FInt "task-id" (proto.ID task);
               FString "type" (proto.Type_ task);
               FInt "remaining-slots"
                 (availableSlots (slotManager (started m task executor)))];
            EvGoExecutor executorWG task executor (grant env m task)])
      end
  end.
Proof.
  unfold startTaskExecutor.
  destruct (GetTaskExecutorFactory env (proto.Type_ task)) as [factory|];
    [|apply logErrAndPersist_run].
  run_method.
  destruct (Init (factory (id m) task)) as [err|].
  - by rewrite logErrAndPersist_run.
  - reflexivity.
Qed.

Lemma canceled_persisted (m : Manager SM) err taskID taskExecutor :
  canceled (persisted env m err taskID taskExecutor) = [].
Proof. persisted_cases. Qed.

Lemma launched_persisted (m : Manager SM) err taskID taskExecutor :
  launched (persisted env m err taskID taskExecutor) = [].
Proof. persisted_cases. Qed.

Lemma startTaskExecutor_canceled task (m : Manager SM) :
  canceled (trace (startTaskExecutor env task m)) = [].
Proof.
  rewrite startTaskExecutor_run.
  destruct (GetTaskExecutorFactory env (proto.Type_ task)) as [factory|];
    [|apply canceled_persisted].
  cbn zeta. destruct (Init (factory (id m) task)); [|reflexivity].
  cbn [trace snd canceled]. apply canceled_persisted.
Qed.

End StartTaskExecutor.

(** ** Admission *)

Section Admission.

Context {SM : Type} `{!SlotManager SM}.
Variable env : Env.

Lemma handleExecutableTasks_cons task taskInfos (m : Manager SM) :
  handleExecutableTasks env (task :: taskInfos) m =
  let answer := canAlloc (slotManager m) (storage.Task task) in
  match answer.2 with
  | _ :: _ =>
      (tt, m,
       EvCanAlloc (storage.Task task) :: EvRLock ::
       flat_map (cancelSignal (taskExecutors m)) answer.2 ++ [EvRUnlock])
  | [] =>
      if answer.1 then
        let r1 := startTaskExecutor env (storage.Task task) m in
        let r := handleExecutableTasks env taskInfos (after r1) in
        (value r, after r,
         EvCanAlloc (storage.Task task) :: trace r1 ++ trace r)
      else
        let r := handleExecutableTasks env taskInfos m in
        (value r, after r,
         EvCanAlloc (storage.Task task) ::
         EvLog LDebug "no enough slots to run task"
           [FInt "task-id" (proto.ID (storage.Task task))] ::
         trace r)
  end.
Proof.
  cbn [handleExecutableTasks]. run_method.
  destruct (canAlloc (slotManager m) (storage.Task task))
    as [ok [|t tasksNeedFree]]; cbn [fst snd length Nat.ltb Nat.leb].
  - destruct ok; cbn [negb].
    + by rewrite run_bind.
    + by rewrite !run_bind.
  - by rewrite cancelTaskExecutors_run.
Qed.

(** Candidates the round gets past are handled one after the other. *)
Lemma handleExecutableTasks_app pre rest (m : Manager SM) :
  passes env pre m = true →
  let r0 := handleExecutableTasks env pre m in
  let r := handleExecutableTasks env rest (after r0) in
  handleExecutableTasks env (pre ++ rest) m =
  (value r, after r, trace r0 ++ trace r).
Proof.
  revert m. induction pre as [|task pre IH]; intros m Hp.
  - cbn. apply run_eta.
  - cbn [app]. rewrite !handleExecutableTasks_cons.
    cbn [passes] in Hp.
    destruct (canAlloc (slotManager m) (storage.Task task))
      as [ok [|t tasksNeedFree]]; [|done].
    destruct ok; cbn zeta; cbn [value after trace fst snd].
    + rewrite (IH _ Hp). cbn zeta. cbn [value after trace fst snd].
      by rewrite <-app_comm_cons, <-app_assoc.
    + by rewrite (IH _ Hp).
Qed.

Lemma passes_canceled pre (m : Manager SM) :
  passes env pre m = true →
  canceled (trace (handleExecutableTasks env pre m)) = [].
Proof.
  revert m. induction pre as [|task pre IH]; intros m Hp; [reflexivity|].
  rewrite handleExecutableTasks_cons. cbn [passes] in Hp.
  destruct (canAlloc (slotManager m) (storage.Task task))
    as [ok [|t tasksNeedFree]]; [|done].
  destruct ok; cbn zeta; cbn [value after trace fst snd canceled].
  - by rewrite canceled_app, startTaskExecutor_canceled, (IH _ Hp).
  - by apply IH.
Qed.

End Admission.

(** The scenario of the spec: 8 units, A (priority 1, 6 units) running, B
    (priority 2, 4 units) is a candidate: A gets [Cancel], B is not started. *)
Example scenario_preemption :
  let r := handleExecutableTasks sample.quiet [sample.info sample.taskB]
             sample.nodeWithA in
  canAlloc (slotManager sample.nodeWithA) sample.taskB =
    (true, [sample.taskA]) ∧
  canceled (trace r) = [sample.execA] ∧ launched (trace r) = [] ∧
  after r = sample.nodeWithA.
Proof. by vm_compute. Qed.

(** Two candidates that fit an idle node are both started, in order. *)
Example scenario_admit :
  let r := handleExecutableTasks sample.quiet
             [sample.info sample.taskB; sample.info sample.taskC]
             sample.idleNode in
  launched (trace r) = [sample.taskB; sample.taskC] ∧
  availableSlots (slotManager (after r)) = 2.
Proof. by vm_compute. Qed.

(** C1. When the admission step of a round reaches a candidate for which
    [canAlloc] names a non-empty set of tasks to free, it ends there: what it
    does after the candidates before it is the admission check and one
    [Cancel] for each task of the set that has a live executor, nothing else.
    The executors that receive [Cancel] in the admission step are exactly
    those of the set; no executor unit is launched for the candidate or for a
    later one, and no executor is registered or capacity reserved for them. *)
Theorem preemption_halts_round {SM : Type} `{!SlotManager SM}
    (env : Env) (m : Manager SM) (pre post : list storage.TaskExecInfo)
    (task : storage.TaskExecInfo) (ok : bool) (tasksNeedFree : list proto.Task) :
  passes env pre m = true →
  let r0 := handleExecutableTasks env pre m in
  canAlloc (slotManager (after r0)) (storage.Task task) = (ok, tasksNeedFree) →
  tasksNeedFree ≠ [] →
  let r := handleExecutableTasks env (pre ++ task :: post) m in
  trace r =
    trace r0 ++
    EvCanAlloc (storage.Task task) :: EvRLock ::
    flat_map (cancelSignal (taskExecutors (after r0))) tasksNeedFree ++
    [EvRUnlock] ∧
  after r = after r0 ∧
  canceled (trace r) =
    omap (fun t => taskExecutors (after r0) !! proto.ID t) tasksNeedFree ∧
  launched (trace r) = launched (trace r0).
Proof.
  intros Hp r0 Hc Hne r. subst r.
  rewrite (handleExecutableTasks_app env pre (task :: post) m Hp).
  fold r0. cbn zeta. rewrite handleExecutableTasks_cons, Hc.
  destruct tasksNeedFree as [|t tasksNeedFree]; [done|].
  cbn [value after trace fst snd]. split; [reflexivity|]. split; [reflexivity|].
  split.
  - rewrite canceled_app. unfold r0. rewrite (passes_canceled env pre m Hp).
    cbn [app canceled]. rewrite canceled_app, canceled_cancelSignals.
    cbn [canceled]. by rewrite app_nil_r.
  - rewrite launched_app. cbn [launched].
    rewrite launched_app, launched_cancelSignals. cbn [launched app].
    by rewrite app_nil_r.
Qed.

(** The scenario of the spec, between a denied candidate and one that would
    fit: 8 units, A (priority 1, 6 units) running; X is denied, B (priority 2,
    4 units) needs A freed, C (2 units) would fit and is not looked at. *)
Lemma preemption_halts_round_witness :
  let r := handleExecutableTasks sample.quiet
             [sample.info sample.taskX; sample.info sample.taskB;
              sample.info sample.taskC] sample.nodeWithA in
  canceled (trace r) = [sample.execA] ∧ launched (trace r) = [] ∧
  after r = sample.nodeWithA.
Proof.
  intros r.
  destruct (preemption_halts_round sample.quiet sample.nodeWithA
              [sample.info sample.taskX] [sample.info sample.taskC]
              (sample.info sample.taskB) true [sample.taskA])
    as (_ & Ha & Hc & Hl); [reflexivity|reflexivity|discriminate|].
  split; [exact Hc|]. split; [exact Hl|exact Ha].
Defined.

(** C4. When the round reaches a candidate for which [canAlloc] answers no
    with nothing to free, it logs that and goes on with the candidates after
    it, from the same state; if the next one is admitted by [canAlloc], its
    executor is started in this round. *)
Theorem deny_continues {SM : Type} `{!SlotManager SM}
    (env : Env) (m : Manager SM) (pre post : list storage.TaskExecInfo)
    (task : storage.TaskExecInfo) :
  passes env pre m = true →
  let r0 := handleExecutableTasks env pre m in
  canAlloc (slotManager (after r0)) (storage.Task task) = (false, []) →
  let r := handleExecutableTasks env (pre ++ task :: post) m in
  let r1 := handleExecutableTasks env post (after r0) in
  trace r =
    trace r0 ++
    EvCanAlloc (storage.Task task) ::
    EvLog LDebug "no enough slots to run task"
      [FInt "task-id" (proto.ID (storage.Task task))] ::
    trace r1 ∧
  after r = after r1 ∧
  (∀ next post',
     post = next :: post' →
     canAlloc (slotManager (after r0)) (storage.Task next) = (true, []) →
     let r2 := startTaskExecutor env (storage.Task next) (after r0) in
     trace r1 =
       EvCanAlloc (storage.Task next) ::
       trace r2 ++ trace (handleExecutableTasks env post' (after r2))).
Proof.
  intros Hp r0 Hc r r1. subst r.
  rewrite (handleExecutableTasks_app env pre (task :: post) m Hp).
  fold r0. cbn zeta. rewrite handleExecutableTasks_cons, Hc.
  fold r1. cbn [value after trace fst snd].
  split; [reflexivity|]. split; [reflexivity|].
  intros next post' -> Hn. subst r1.
  by rewrite handleExecutableTasks_cons, Hn.
Qed.

(** 8 units, A (6 units) running: X (4 units) is denied, C (2 units), later in
    the list, is started in the same round. *)
Lemma deny_continues_witness :
  let r := handleExecutableTasks sample.quiet
             [sample.info sample.taskX; sample.info sample.taskC]
             sample.nodeWithA in
  canAlloc (slotManager sample.nodeWithA) sample.taskX = (false, []) ∧
  launched (trace r) = [sample.taskC] ∧
  is_Some (taskExecutors (after r) !! 3).
Proof.
  intros r. split; [reflexivity|].
  destruct (deny_continues sample.quiet sample.nodeWithA []
              [sample.info sample.taskC] (sample.info sample.taskX))
    as (Ht & Ha & _); [reflexivity|reflexivity|].
  cbn zeta in Ht, Ha. cbn [app] in Ht, Ha. subst r. rewrite Ht, Ha.
  split; [reflexivity|]. vm_compute. eauto.
Defined.

(** ** Startup failures *)

Section StartupFailures.

Context {SM : Type} `{!SlotManager SM}.
Variable env : Env.

Lemma registryWrites_persisted_fail (m : Manager SM) err taskID taskExecutor :
  match taskExecutor with
  | Some e => IsRetryableError e err
  | None => false
  end = false →
  registryWrites (persisted env m err taskID taskExecutor) =
  [EvFailSubtask (id m) taskID err].
Proof.
  intros Hr. unfold persisted. rewrite Hr.
  by destruct (bool_decide _).
Qed.

Lemma persisted_retryable (m : Manager SM) err taskID executor :
  IsRetryableError executor err = true →
  persisted env m err taskID (Some executor) =
  [EvLog LError "task manager met error" [FError (Some err); FStack];
   EvLog LError "met retryable err" [FError (Some err); FStack]].
Proof. intros Hr. unfold persisted. by rewrite Hr. Qed.

End StartupFailures.

Example start_unknown_type :
  let r := startTaskExecutor sample.quiet sample.taskUnknown sample.idleNode in
  registryWrites (trace r) =
    [EvFailSubtask ":4000" 11 "task type import not found"] ∧
  after r = sample.idleNode.
Proof. by vm_compute. Qed.

Example start_retryable :
  let r := startTaskExecutor sample.quiet sample.taskRetry sample.idleNode in
  registryWrites (trace r) = [] ∧ launched (trace r) = [] ∧
  after r = sample.idleNode.
Proof. by vm_compute. Qed.

(** C5. A task whose executor cannot be started.  When no factory is
    registered for its type tag, or [Init] fails with an error the executor
    does not classify as retryable, the only registry write is one
    [FailSubtask] for the task, with that error.  When [Init] fails with an
    error the executor classifies as retryable, the error is logged and the
    registry is not written.  In each case the Manager is left as it was (no
    executor registered, no capacity reserved) and no unit is launched. *)
Theorem startup_failure {SM : Type} `{!SlotManager SM}
    (env : Env) (m : Manager SM) (task : proto.Task) :
  let r := startTaskExecutor env task m in
  (GetTaskExecutorFactory env (proto.Type_ task) = None →
     registryWrites (trace r) =
       [EvFailSubtask (id m) (proto.ID task)
          ("task type " +:+ proto.Type_ task +:+ " not found")] ∧
     after r = m ∧ launched (trace r) = []) ∧
  (∀ factory err,
     GetTaskExecutorFactory env (proto.Type_ task) = Some factory →
     Init (factory (id m) task) = Some err →
     let executor := factory (id m) task in
     (IsRetryableError executor err = false →
        registryWrites (trace r) = [EvFailSubtask (id m) (proto.ID task) err]) ∧
     (IsRetryableError executor err = true →
        trace r =
          [EvInit executor;
           EvLog LError "task manager met error" [FError (Some err); FStack];
           EvLog LError "met retryable err" [FError (Some err); FStack]] ∧
        registryWrites (trace r) = []) ∧
     after r = m ∧ launched (trace r) = []).
Proof.
  intros r. subst r. rewrite startTaskExecutor_run. split.
  - intros ->. cbn [after trace fst snd].
    split; [by apply registryWrites_persisted_fail|].
    split; [done|apply launched_persisted].
  - intros factory err -> Hinit. cbn zeta. rewrite Hinit.
    cbn [after trace fst snd]. split; [|split; [|split]].
    + intros Hr. cbn [registryWrites List.filter is_registry_write].
      by apply registryWrites_persisted_fail.
    + intros Hr. by rewrite persisted_retryable.
    + done.
    + cbn [launched]. apply launched_persisted.
Qed.

(** A type tag whose [Init] fails for good: one [FailSubtask]. *)
Lemma startup_failure_witness :
  let r := startTaskExecutor sample.quiet sample.taskFatal sample.idleNode in
  registryWrites (trace r) = [EvFailSubtask ":4000" 9 "broken"] ∧
  after r = sample.idleNode ∧ launched (trace r) = [].
Proof.
  intros r.
  destruct (startup_failure sample.quiet sample.idleNode sample.taskFatal)
    as [_ Hinit].
  destruct (Hinit (fun _ => sample.executor (Some "broken") false RunFinished)
              "broken") as (Hfail & _ & Ha & Hl); [reflexivity..|].
  split; [|by split]. by apply Hfail.
Defined.

(** C2. The unit of work of a started executor: however [Run] ends (a normal
    end, a failure, a cancellation, a panic), the deferred cleanup runs once:
    it frees the reservation of the task, then removes the executor from the
    map, then calls [Close], in this order; the panic, if any, goes on. *)
Theorem executor_cleanup {SM : Type} `{!SlotManager SM}
    (m : Manager SM) (task : proto.Task) (executor : TaskExecutor)
    (resource : proto.StepResource) (x : RunExit) :
  Run executor resource = x →
  let r := executorUnit task executor resource m in
  value r = completion_of x ∧
  trace r =
    [EvRun executor resource;
     EvLog LInfo "task executor exit"
       [FInt "task-id" (proto.ID task); FString "type" (proto.Type_ task)];
     EvSlotFree (proto.ID task);
     EvLock; EvMapDelete (proto.ID (GetTask executor)); EvUnlock;
     EvClose executor] ∧
  slotManager (after r) = free (slotManager m) (proto.ID task) ∧
  taskExecutors (after r) =
    delete (proto.ID (GetTask executor)) (taskExecutors m).
Proof. intros <-. by repeat split. Qed.

(** [Run] panics: the reservation is freed and the executor removed all the
    same. *)
Lemma executor_cleanup_witness :
  let m := started sample.idleNode sample.taskPanic sample.execPanic in
  let r := executorUnit sample.taskPanic sample.execPanic
             (grant sample.quiet sample.idleNode sample.taskPanic) m in
  Run sample.execPanic (grant sample.quiet sample.idleNode sample.taskPanic) =
    RunPanicked ∧
  value r = Panicking ∧
  slotManager (after r) = slotManager sample.idleNode ∧
  taskExecutors (after r) !! 10 = None.
Proof.
  intros m r. split; [reflexivity|].
  destruct (executor_cleanup m sample.taskPanic sample.execPanic
              (grant sample.quiet sample.idleNode sample.taskPanic) RunPanicked)
    as (Hv & _ & Hs & He); [reflexivity|].
  split; [exact Hv|]. subst r. split; [by rewrite Hs|].
  rewrite He. apply lookup_delete_eq.
Defined.

(** ** One reconciliation round *)

Section Round.

Context {SM : Type} `{!SlotManager SM}.
Variable env : Env.

Lemma handleTasks_range_run tasks executableTasks (m : Manager SM) :
  handleTasks_range env tasks executableTasks m =
  (executableTasks ++ List.filter (candidate m) tasks, m,
   flat_map (classified env m) tasks).
Proof.
  revert executableTasks.
  induction tasks as [|task tasks IH]; intros executableTasks.
  - cbn. by rewrite app_nil_r.
  - cbn [handleTasks_range flat_map List.filter].
    unfold candidate at 1, classified at 1.
    destruct (proto.State (storage.Task task)) eqn:Hstate;
      cbn [is_reverting]; rewrite ?run_bind, ?IH; try reflexivity.
    + (* running *)
      rewrite isExecutorStarted_run. cbn [ret value after trace fst snd app].
      destruct (bool_decide _); cbn [negb]; [reflexivity|].
      by rewrite <-app_assoc.
    + (* reverting *)
      rewrite cancelRunningSubtaskOf_run. cbn [value after trace fst snd].
      rewrite ?run_bind, isExecutorStarted_run.
      cbn [value after trace fst snd]. rewrite ?IH.
      cbn [value after trace fst snd]. f_equal; [f_equal|].
      * destruct (bool_decide _); cbn [negb]; [reflexivity|].
        by rewrite <-app_assoc.
      * cbn [app]. f_equal. by rewrite <-!app_assoc.
    + (* pausing *)
      rewrite handlePausingTask_run. cbn [value after trace fst snd].
      rewrite ?run_bind.
      destruct (PauseSubtasks env (proto.ID (storage.Task task)));
        cbn [logErr emit ret value after trace fst snd];
        rewrite ?IH; cbn [value after trace fst snd];
        f_equal; cbn [app]; rewrite <-?app_assoc; reflexivity.
Qed.

(** A round whose fetch succeeds: the fetch, the loop over the fetched
    tasks, then the admission of the candidates. *)
Lemma handleTasks_run tasks (m : Manager SM) :
  GetTaskExecInfoByExecID env = (tasks, None) →
  let r := handleExecutableTasks env (List.filter (candidate m) tasks) m in
  handleTasks env m =
  (tt, after r,
   EvGetTaskExecInfoByExecID (id m) ::
   flat_map (classified env m) tasks ++ trace r).
Proof.
  intros Hfetch. unfold handleTasks. run_method. rewrite Hfetch.
  rewrite run_bind, handleTasks_range_run.
  cbn [value after trace fst snd app].
  destruct (List.filter (candidate m) tasks) as [|c cs] eqn:Hc.
  - cbn. by rewrite app_nil_r.
  - cbn [length Nat.ltb Nat.leb]. cbn zeta.
    by destruct (handleExecutableTasks env (c :: cs) m) as [[[] m'] tr'].
Qed.

(** A round whose fetch fails. *)
Lemma handleTasks_fetch_error tasks err (m : Manager SM) :
  GetTaskExecInfoByExecID env = (tasks, Some err) →
  handleTasks env m =
  (tt, m,
   [EvGetTaskExecInfoByExecID (id m);
    EvLog LError "task manager met error" [FError (Some err); FStack]]).
Proof.
  intros Hfetch. unfold handleTasks. run_method. by rewrite Hfetch.
Qed.

Lemma elem_of_flat_map_classified (m : Manager SM) task tasks e :
  task ∈ tasks → e ∈ classified env m task →
  e ∈ flat_map (classified env m) tasks.
Proof.
  intros Ht He. apply list_elem_of_In, in_flat_map.
  exists task. by rewrite <-!list_elem_of_In.
Qed.

End Round.

(** C3. A round whose fetch succeeds.  For every fetched task in state
    [reverting] with a live executor, that executor gets
    [CancelRunningSubtask], whatever the admission of candidates does.  For
    every fetched task in state [pausing], [PauseSubtasks] is sent to the
    registry, preceded by [Cancel] on the executor of the task when one is
    live, and sent as well when none is. *)
Theorem reconciliation_classification {SM : Type} `{!SlotManager SM}
    (env : Env) (m : Manager SM) (tasks : list storage.TaskExecInfo) :
  GetTaskExecInfoByExecID env = (tasks, None) →
  let r := handleTasks env m in
  (∀ task executor,
     task ∈ tasks →
     proto.State (storage.Task task) = proto.TaskStateReverting →
     taskExecutors m !! proto.ID (storage.Task task) = Some executor →
     EvCancelRunningSubtask executor ∈ trace r) ∧
  (∀ task,
     task ∈ tasks →
     proto.State (storage.Task task) = proto.TaskStatePausing →
     ∃ before behind,
       trace r =
         before ++
         match taskExecutors m !! proto.ID (storage.Task task) with
         | Some executor => [EvCancel executor]
         | None => []
         end ++
         EvPauseSubtasks (id m) (proto.ID (storage.Task task)) :: behind).
Proof.
  intros Hfetch r. subst r. rewrite (handleTasks_run env tasks m Hfetch).
  cbn zeta. cbn [trace snd]. split.
  - intros task executor Hin Hstate Hlive.
    apply elem_of_cons. right. apply elem_of_app. left.
    apply (elem_of_flat_map_classified env m task); [done|].
    unfold classified. rewrite Hstate, Hlive.
    do 2 (apply elem_of_cons; right). apply elem_of_cons. by left.
  - intros task Hin Hstate.
    apply list_elem_of_In, in_split in Hin as (l1 & l2 & ->).
    rewrite flat_map_app. cbn [flat_map].
    unfold classified at 2. rewrite Hstate.
    eexists (_ :: flat_map (classified env m) l1 ++ [_; _]), _.
    do 3 (cbn [app]; rewrite <-?app_assoc). reflexivity.
Qed.

(** A reverting task with no executor, a pausing task with no executor, and
    the running task A with its executor: the pause request goes out. *)
Lemma reconciliation_classification_witness :
  let tasks := [sample.info sample.taskD; sample.info sample.taskP;
                sample.info sample.taskA] in
  let r := handleTasks (sample.env (tasks, None) 0 100) sample.nodeWithA in
  taskExecutors sample.nodeWithA !! 5 = None ∧
  EvPauseSubtasks ":4000" 5 ∈ trace r.
Proof.
  intros tasks r. split; [reflexivity|].
  destruct (reconciliation_classification
              (sample.env (tasks, None) 0 100) sample.nodeWithA tasks)
    as [_ Hpause]; [reflexivity|].
  destruct (Hpause (sample.info sample.taskP)) as (before & behind & Htr);
    [|reflexivity|].
  - apply elem_of_cons. right. apply elem_of_cons. by left.
  - subst r. rewrite Htr. apply elem_of_app. right.
    apply elem_of_cons. by left.
Defined.

(** C9. A round whose fetch fails does nothing but log the error: after the
    fetch request the only event is the log entry, and the Manager (executor
    map and reservations) is unchanged. *)
Theorem fetch_error_is_only_logged {SM : Type} `{!SlotManager SM}
    (env : Env) (m : Manager SM) (tasks : list storage.TaskExecInfo)
    (err : Error) :
  GetTaskExecInfoByExecID env = (tasks, Some err) →
  handleTasks env m =
  (tt, m,
   [EvGetTaskExecInfoByExecID (id m);
    EvLog LError "task manager met error" [FError (Some err); FStack]]).
Proof. apply handleTasks_fetch_error. Qed.

(** The registry is unreachable while task B waits and A runs. *)
Lemma fetch_error_is_only_logged_witness :
  let env := sample.env ([sample.info sample.taskB], Some "timeout") 0 100 in
  after (handleTasks env sample.nodeWithA) = sample.nodeWithA ∧
  trace (handleTasks env sample.nodeWithA) =
    [EvGetTaskExecInfoByExecID ":4000";
     EvLog LError "task manager met error" [FError (Some "timeout"); FStack]].
Proof.
  intros env.
  rewrite (fetch_error_is_only_logged env sample.nodeWithA
             [sample.info sample.taskB] "timeout"); [|reflexivity].
  by split.
Defined.

(** C10. [Start] never fails: it logs, launches the two loops (task
    reconciliation, then identity recovery) on [m.wg] and nothing else, leaves
    the Manager as it is and returns nil. *)
Theorem Start_returns_nil {SM : Type} `{!SlotManager SM} (m : Manager SM) :
  Start m =
  (None, m,
   [EvLog LInfo "task executor manager start" [];
    EvGoLoop wg handleTasksLoop;
    EvGoLoop wg recoverMetaLoop]).
Proof. reflexivity. Qed.

(** ** The lock and the executor map *)

Lemma lockRun_app s t1 t2 :
  lockRun s (t1 ++ t2) = lockRun s t1 ≫= fun s' => lockRun s' t2.
Proof.
  revert s. induction t1 as [|e t1 IH]; intros s; [reflexivity|].
  cbn [app lockRun]. destruct (lockStep s e); [apply IH|reflexivity].
Qed.

Lemma lockRun_seq t1 t2 :
  lockRun Unlocked t1 = Some Unlocked → lockRun Unlocked t2 = Some Unlocked →
  lockRun Unlocked (t1 ++ t2) = Some Unlocked.
Proof. intros H1 H2. by rewrite lockRun_app, H1. Qed.

Lemma mapWrites_app t1 t2 execs :
  mapWrites (t1 ++ t2) execs = mapWrites t2 (mapWrites t1 execs).
Proof.
  revert execs. induction t1 as [|e t1 IH]; intros execs; [reflexivity|].
  destruct e; cbn [app mapWrites]; apply IH.
Qed.

Lemma lock_free_lockRun s tr :
  forallb is_lock_free tr = true → lockRun s tr = Some s.
Proof.
  induction tr as [|e tr IH]; [reflexivity|].
  cbn [forallb]. intros [He Htr]%andb_true_iff.
  cbn [lockRun]. destruct e; try discriminate; by apply IH.
Qed.

Lemma lock_free_mapWrites tr execs :
  forallb is_lock_free tr = true → mapWrites tr execs = execs.
Proof.
  induction tr as [|e tr IH]; [reflexivity|].
  cbn [forallb]. intros [He Htr]%andb_true_iff.
  destruct e; try discriminate; by apply IH.
Qed.

Section Discipline.

Context {SM : Type} `{!SlotManager SM}.
Variable env : Env.

Lemma lock_free_persisted (m : Manager SM) err taskID taskExecutor :
  forallb is_lock_free (persisted env m err taskID taskExecutor) = true.
Proof. persisted_cases. Qed.

Lemma lock_free_cancelSignals (execs : gmap Z TaskExecutor) tasks :
  forallb is_lock_free (flat_map (cancelSignal execs) tasks) = true.
Proof.
  induction tasks as [|task tasks IH]; [reflexivity|].
  cbn [flat_map]. rewrite forallb_app, IH, andb_true_r.
  unfold cancelSignal. by destruct (execs !! proto.ID task).
Qed.

Lemma classified_one (m : Manager SM) task execs :
  lockRun Unlocked (classified env m task) = Some Unlocked ∧
  mapWrites (classified env m task) execs = execs.
Proof.
  unfold classified.
  destruct (proto.State (storage.Task task)); try done;
    destruct (taskExecutors m !! proto.ID (storage.Task task)); try done;
    by destruct (PauseSubtasks env (proto.ID (storage.Task task))).
Qed.

Lemma classified_disciplined (m : Manager SM) tasks execs :
  lockRun Unlocked (flat_map (classified env m) tasks) = Some Unlocked ∧
  mapWrites (flat_map (classified env m) tasks) execs = execs.
Proof.
  induction tasks as [|task tasks [IHl IHm]]; [done|].
  destruct (classified_one m task execs) as [Hl Hm].
  cbn [flat_map]. rewrite mapWrites_app, Hm.
  split; [by apply lockRun_seq|done].
Qed.

Lemma startTaskExecutor_disciplined task (m : Manager SM) :
  disciplined m (startTaskExecutor env task m).
Proof.
  unfold disciplined. rewrite startTaskExecutor_run.
  destruct (GetTaskExecutorFactory env (proto.Type_ task)) as [factory|].
  - cbn zeta. destruct (Init (factory (id m) task)) as [err|].
    + cbn [after trace fst snd].
      pose proof (lock_free_persisted m err (proto.ID task)
                    (Some (factory (id m) task))) as Hq.
      split.
      * cbn [lockRun lockStep]. by apply lock_free_lockRun.
      * cbn [mapWrites]. by rewrite lock_free_mapWrites.
    + done.
  - cbn [after trace fst snd]. split.
    + apply lock_free_lockRun, lock_free_persisted.
    + by rewrite lock_free_mapWrites by apply lock_free_persisted.
Qed.

Lemma handleExecutableTasks_disciplined taskInfos (m : Manager SM) :
  disciplined m (handleExecutableTasks env taskInfos m).
Proof.
  revert m. induction taskInfos as [|task taskInfos IH]; intros m; [done|].
  unfold disciplined. rewrite handleExecutableTasks_cons. cbn zeta.
  destruct (canAlloc (slotManager m) (storage.Task task))
    as [ok [|t tasksNeedFree]]; cbn [fst snd].
  - destruct ok; cbn [after trace fst snd].
    + destruct (startTaskExecutor_disciplined (storage.Task task) m)
        as [Hl1 Hm1].
      destruct (IH (after (startTaskExecutor env (storage.Task task) m)))
        as [Hl2 Hm2].
      split.
      * cbn [lockRun lockStep]. by apply lockRun_seq.
      * cbn [mapWrites]. by rewrite mapWrites_app, <-Hm1.
    + apply IH.
  - cbn [after trace fst snd].
    pose proof (lock_free_cancelSignals (taskExecutors m)
                  (t :: tasksNeedFree)) as Hq.
    split.
    + cbn [lockRun lockStep]. rewrite lockRun_app.
      by rewrite (lock_free_lockRun _ _ Hq).
    + cbn [mapWrites]. rewrite mapWrites_app.
      by rewrite (lock_free_mapWrites _ _ Hq).
Qed.

Lemma handleTasks_disciplined (m : Manager SM) :
  disciplined m (handleTasks env m).
Proof.
  destruct (GetTaskExecInfoByExecID env) as [tasks [err|]] eqn:Hfetch.
  - by rewrite (handleTasks_fetch_error env tasks err m Hfetch).
  - rewrite (handleTasks_run env tasks m Hfetch). cbn zeta.
    destruct (classified_disciplined m tasks (taskExecutors m)) as [Hl Hm].
    destruct (handleExecutableTasks_disciplined
                (List.filter (candidate m) tasks) m) as [Hl' Hm'].
    unfold disciplined. cbn [after trace fst snd]. split.
    + cbn [lockRun lockStep]. by apply lockRun_seq.
    + cbn [mapWrites]. by rewrite mapWrites_app, Hm.
Qed.

Lemma executorUnit_disciplined task executor resource (m : Manager SM) :
  disciplined m (executorUnit task executor resource m).
Proof. done. Qed.

Lemma startTaskExecutor_keyed task (m : Manager SM) :
  keyed m → keyed (after (startTaskExecutor env task m)).
Proof.
  intros Hk. rewrite startTaskExecutor_run.
  destruct (GetTaskExecutorFactory env (proto.Type_ task)) as [factory|];
    [|done].
  cbn zeta. destruct (Init (factory (id m) task)); [done|].
  intros taskID executor. cbn.
  destruct (decide (proto.ID (GetTask (factory (id m) task)) = taskID))
    as [<-|Hne].
  - rewrite lookup_insert_eq. by intros [= <-].
  - rewrite lookup_insert_ne by done. apply Hk.
Qed.

Lemma handleExecutableTasks_keyed taskInfos (m : Manager SM) :
  keyed m → keyed (after (handleExecutableTasks env taskInfos m)).
Proof.
  revert m. induction taskInfos as [|task taskInfos IH]; intros m Hk; [done|].
  rewrite handleExecutableTasks_cons. cbn zeta.
  destruct (canAlloc (slotManager m) (storage.Task task))
    as [ok [|t tasksNeedFree]]; cbn [fst snd]; [|done].
  destruct ok; cbn [after fst snd]; [|by apply IH].
  by apply IH, startTaskExecutor_keyed.
Qed.

Lemma handleTasks_keyed (m : Manager SM) :
  keyed m → keyed (after (handleTasks env m)).
Proof.
  intros Hk.
  destruct (GetTaskExecInfoByExecID env) as [tasks [err|]] eqn:Hfetch.
  - by rewrite (handleTasks_fetch_error env tasks err m Hfetch).
  - rewrite (handleTasks_run env tasks m Hfetch). cbn zeta.
    by apply handleExecutableTasks_keyed.
Qed.

Lemma executorUnit_keyed task executor resource (m : Manager SM) :
  keyed m → keyed (after (executorUnit task executor resource m)).
Proof.
  intros Hk taskID e. cbn.
  intros [_ Hlive]%lookup_delete_Some. by apply Hk.
Qed.

Lemma candidate_spec (m : Manager SM) task :
  candidate m task = true →
  taskExecutors m !! proto.ID (storage.Task task) = None ∧
  (proto.State (storage.Task task) = proto.TaskStateRunning ∨
   proto.State (storage.Task task) = proto.TaskStateReverting).
Proof.
  unfold candidate.
  destruct (proto.State (storage.Task task)); try discriminate;
    (intros Hlive%negb_true_iff%bool_decide_eq_false;
     split; [by apply eq_None_not_Some|auto]).
Qed.

End Discipline.

(** C6. The live executor set is a map keyed by task id, so it holds at most
    one executor per id.  In a round, a fetched task becomes a start-candidate
    only if it is running or reverting and no executor is live for its id.
    The round and the executor units take and release the lock properly and
    write the map only while holding the write lock, and every change of the
    map is one of these writes.  They also keep every executor under the id of
    its own task. *)
Theorem single_executor_per_task {SM : Type} `{!SlotManager SM}
    (env : Env) (m : Manager SM) :
  let tasks := (GetTaskExecInfoByExecID env).1 in
  (∀ taskID e1 e2,
     taskExecutors m !! taskID = Some e1 →
     taskExecutors m !! taskID = Some e2 → e1 = e2) ∧
  (∀ task,
     task ∈ value (handleTasks_range env tasks [] m) →
     task ∈ tasks ∧
     taskExecutors m !! proto.ID (storage.Task task) = None ∧
     (proto.State (storage.Task task) = proto.TaskStateRunning ∨
      proto.State (storage.Task task) = proto.TaskStateReverting)) ∧
  (let r := handleTasks env m in
   lockRun Unlocked (trace r) = Some Unlocked ∧
   taskExecutors (after r) = mapWrites (trace r) (taskExecutors m)) ∧
  (∀ task executor resource,
     let r := executorUnit task executor resource m in
     lockRun Unlocked (trace r) = Some Unlocked ∧
     taskExecutors (after r) = mapWrites (trace r) (taskExecutors m)) ∧
  (keyed m →
     keyed (after (handleTasks env m)) ∧
     ∀ task executor resource,
       keyed (after (executorUnit task executor resource m))).
Proof.
  intros tasks. split; [|split; [|split; [|split]]].
  - intros taskID e1 e2 H1 H2. congruence.
  - intros task. rewrite handleTasks_range_run. cbn [value fst app].
    intros [Hin Hc]%list_elem_of_In%filter_In.
    split; [by apply list_elem_of_In|]. by apply candidate_spec.
  - apply handleTasks_disciplined.
  - intros task executor resource. apply executorUnit_disciplined.
  - intros Hk. split; [by apply handleTasks_keyed|].
    intros task executor resource. by apply executorUnit_keyed.
Qed.

Lemma sample_nodeWithA_keyed : keyed sample.nodeWithA.
Proof.
  intros taskID executor. unfold sample.nodeWithA. cbn [taskExecutors].
  intros [<- <-]%lookup_singleton_Some. reflexivity.
Qed.

(** A is live and fetched again with B: only B is a start-candidate, and the
    round keeps the executors under their ids. *)
Lemma single_executor_per_task_witness :
  let env := sample.env ([sample.info sample.taskA; sample.info sample.taskB],
                         None) 0 100 in
  sample.info sample.taskB ∈
    value (handleTasks_range env (GetTaskExecInfoByExecID env).1 []
             sample.nodeWithA) ∧
  taskExecutors sample.nodeWithA !! 2 = None ∧
  keyed sample.nodeWithA ∧
  keyed (after (handleTasks env sample.nodeWithA)).
Proof.
  intros env.
  assert (Hin : sample.info sample.taskB ∈
                value (handleTasks_range env (GetTaskExecInfoByExecID env).1 []
                         sample.nodeWithA)).
  { apply elem_of_cons. by left. }
  split; [exact Hin|].
  destruct (single_executor_per_task env sample.nodeWithA)
    as (_ & Hcand & _ & _ & Hkeyed).
  destruct (Hcand (sample.info sample.taskB) Hin) as (_ & Hnone & _).
  split; [exact Hnone|]. split; [exact sample_nodeWithA_keyed|].
  exact (proj1 (Hkeyed sample_nodeWithA_keyed)).
Defined.

(** ** Shutdown *)

Section WaitGroups.

Context {SM : Type} `{!SlotManager SM}.
Variable env : Env.

Lemma well_grouped_persisted (m : Manager SM) err taskID taskExecutor :
  forallb is_well_grouped (persisted env m err taskID taskExecutor) = true.
Proof. persisted_cases. Qed.

Lemma well_grouped_cancelSignals (execs : gmap Z TaskExecutor) tasks :
  forallb is_well_grouped (flat_map (cancelSignal execs) tasks) = true.
Proof.
  induction tasks as [|task tasks IH]; [reflexivity|].
  cbn [flat_map]. rewrite forallb_app, IH, andb_true_r.
  unfold cancelSignal. by destruct (execs !! proto.ID task).
Qed.

Lemma well_grouped_classified (m : Manager SM) tasks :
  forallb is_well_grouped (flat_map (classified env m) tasks) = true.
Proof.
  induction tasks as [|task tasks IH]; [reflexivity|].
  cbn [flat_map]. rewrite forallb_app, IH, andb_true_r.
  unfold classified.
  destruct (proto.State (storage.Task task)); try done;
    destruct (taskExecutors m !! proto.ID (storage.Task task)); try done;
    by destruct (PauseSubtasks env (proto.ID (storage.Task task))).
Qed.

Lemma well_grouped_startTaskExecutor task (m : Manager SM) :
  forallb is_well_grouped (trace (startTaskExecutor env task m)) = true.
Proof.
  rewrite startTaskExecutor_run.
  destruct (GetTaskExecutorFactory env (proto.Type_ task)) as [factory|];
    [|apply well_grouped_persisted].
  cbn zeta. destruct (Init (factory (id m) task)); [|reflexivity].
  apply well_grouped_persisted.
Qed.

Lemma well_grouped_handleExecutableTasks taskInfos (m : Manager SM) :
  forallb is_well_grouped (trace (handleExecutableTasks env taskInfos m)) =
  true.
Proof.
  revert m. induction taskInfos as [|task taskInfos IH]; intros m; [done|].
  rewrite handleExecutableTasks_cons. cbn zeta.
  destruct (canAlloc (slotManager m) (storage.Task task))
    as [ok [|t tasksNeedFree]]; cbn [fst snd].
  - destruct ok; cbn [trace snd forallb is_well_grouped andb]; [|apply IH].
    by rewrite forallb_app, well_grouped_startTaskExecutor, IH.
  - cbn [trace snd forallb is_well_grouped andb].
    by rewrite forallb_app, well_grouped_cancelSignals.
Qed.

Lemma well_grouped_handleTasks (m : Manager SM) :
  forallb is_well_grouped (trace (handleTasks env m)) = true.
Proof.
  destruct (GetTaskExecInfoByExecID env) as [tasks [err|]] eqn:Hfetch.
  - by rewrite (handleTasks_fetch_error env tasks err m Hfetch).
  - rewrite (handleTasks_run env tasks m Hfetch). cbn zeta.
    cbn [trace snd forallb is_well_grouped andb].
    by rewrite forallb_app, well_grouped_classified,
      well_grouped_handleExecutableTasks.
Qed.

End WaitGroups.

(** C7. [Stop] cancels the context, then waits on [m.executorWG], then waits
    on [m.wg], in this order and nothing else.  The executor units a round
    launches are all on [m.executorWG], and the loops [Start] launches are
    both on [m.wg]: so the first wait is for the executor units and the second
    for the two loops. *)
Theorem Stop_order {SM : Type} `{!SlotManager SM} (env : Env) (m : Manager SM) :
  Stop m = (tt, m, [EvCtxCancel; EvWait executorWG; EvWait wg]) ∧
  forallb is_well_grouped (trace (handleTasks env m)) = true ∧
  forallb is_well_grouped (trace (Start m)) = true.
Proof.
  split; [reflexivity|]. split; [apply well_grouped_handleTasks|reflexivity].
Qed.

(** * Further properties *)

(** ** Identity recovery: what a caller can rely on *)

Section RecoverMetaMore.

Context {SM : Type} `{!SlotManager SM}.
Variable env : Env.

Lemma failsUntil_cons i k e :
  RecoverMeta env i = Some e → ctxErr env i = None →
  failsUntil env (S i) k → failsUntil env i (S k).
Proof.
  intros He Hc Hf [|j] Hj.
  - rewrite Nat.add_0_r, He, Hc. eauto.
  - rewrite Nat.add_succ_r. apply Hf. lia.
Qed.

Lemma recoverMeta_loop_nil remaining i err (m : Manager SM) :
  value (recoverMeta_loop env remaining i err m) = None →
  (remaining = O ∧ err = None) ∨
  ∃ k, (k < remaining)%nat ∧ failsUntil env i k ∧
       RecoverMeta env (i + k) = None.
Proof.
  revert i err. induction remaining as [|remaining IH]; intros i err.
  - cbn. auto.
  - rewrite recoverMeta_loop_S. intros Hnil. right.
    destruct (RecoverMeta env i) as [e|] eqn:He.
    + destruct (ctxErr env i) as [err1|] eqn:Hc; [discriminate|].
      destruct (IH (S i) (Some e) Hnil) as [[_ [=]]|(k & Hk & Hf & Hok)].
      exists (S k). split; [lia|]. split; [by eapply failsUntil_cons|].
      by rewrite Nat.add_succ_r.
    + exists O. split; [lia|]. split; [intros j Hj; lia|].
      by rewrite Nat.add_0_r.
Qed.






End RecoverMetaMore.

(** X1. [recoverMeta] returns nil exactly when one of its at most 30 attempts
    succeeded, every attempt before it having failed with the context still
    live: success is never reported without a successful upsert. *)
Theorem recoverMeta_nil_iff_upserted {SM : Type} `{!SlotManager SM}
    (env : Env) (m : Manager SM) :
  value (recoverMeta env m) = None ↔
  ∃ k, (k < 30)%nat ∧ failsUntil env 0 k ∧ RecoverMeta env k = None.
Proof.
  unfold recoverMeta. change retrySQLTimes with 30%nat. split.
  - intros Hnil.
    destruct (recoverMeta_loop_nil env 30 0 None m Hnil)
      as [[[=] _]|(k & Hk & Hf & Hok)].
    eauto.
  - intros (k & Hk & Hf & Hok).
    by destruct (recoverMeta_loop_success env 30 0 k None m Hk Hf Hok).
Qed.

Lemma recoverMeta_nil_iff_upserted_witness :
  let env := sample.env ([], None) 3 100 in
  value (recoverMeta env sample.idleNode) = None ∧
  ∃ k, (k < 30)%nat ∧ failsUntil env 0 k ∧ RecoverMeta env k = None.
Proof.
  intros env.
  assert (Hnil : value (recoverMeta env sample.idleNode) = None)
    by reflexivity.
  split; [exact Hnil|].
  exact (proj1 (recoverMeta_nil_iff_upserted env sample.idleNode) Hnil).
Defined.


(** ** Metadata initialisation *)

Section LoopMonadFacts.

Context {SM : Type} `{!SlotManager SM}.

Lemma run_bindX {A B} (c : MX SM A) (k : A -> MX SM B) (m : Manager SM) :
  bindX c k m =
  (valueX (k (valueX (c m)) (afterX (c m))),
   afterX (k (valueX (c m)) (afterX (c m))),
   traceX (c m) ++ traceX (k (valueX (c m)) (afterX (c m)))).
Proof.
  unfold bindX, valueX, afterX, traceX.
  destruct (c m) as [[a m1] t1]; simpl.
  destruct (k a m1) as [[b m2] t2]; reflexivity.
Qed.

Lemma run_call {A} (c : M SM A) (m : Manager SM) :
  call c m = (value (c m), after (c m), Core <$> trace (c m)).
Proof. unfold call. by destruct (c m) as [[a m1] t1]. Qed.

End LoopMonadFacts.

Ltac run_loop :=
  rewrite ?run_bindX, ?run_call;
  cbn [getX emitX retX valueX afterX traceX value after trace fst snd].

Section InitMetaFacts.

Context {SM : Type} `{!SlotManager SM}.
Variable env : Env.

Lemma asInitMeta_failedAttempt (m : Manager SM) i e :
  asInitMeta <$> failedAttempt env m i e =
  EvInitMeta (id m) (TiDBServiceScope env) ::
  (if (i mod 10 =? 0)%nat
   then [Core (EvLog LWarn "start manager failed"
                 [FString "scope" (TiDBServiceScope env);
                  FInt "retry times" (Z.of_nat i);
                  FError (Some e)])]
   else []) ++
  [Core (EvSleep retrySQLInterval)].
Proof. unfold failedAttempt. by destruct (i mod 10 =? 0)%nat. Qed.

Lemma InitMeta_loop_mirrors remaining i err (m : Manager SM) :
  let r := recoverMeta_loop env remaining i err m in
  loops.InitMeta_loop (RecoverMeta env) env remaining i err m =
  (value r, after r, asInitMeta <$> trace r).
Proof.
  revert i err. induction remaining as [|remaining IH]; intros i err.
  - reflexivity.
  - cbn zeta. rewrite recoverMeta_loop_S. cbn [loops.InitMeta_loop].
    run_loop.
    destruct (RecoverMeta env i) as [e|]; [|reflexivity].
    destruct (ctxErr env i); [reflexivity|].
    cbn [value after trace fst snd].
    rewrite fmap_app, asInitMeta_failedAttempt.
    destruct (i mod 10 =? 0)%nat; run_loop;
      rewrite (IH (S i) (Some e)); reflexivity.
Qed.

End InitMetaFacts.

(** X3. [InitMeta] is the retry loop of [recoverMeta]: given the same answers
    of the registry and of the context it returns the same error, leaves the
    Manager as it is and makes the same calls in the same order, with
    [InitMeta] in place of [RecoverMeta] and its own warning message.  So it
    too stops at the first success, at a canceled context, or after 30
    attempts with the last error. *)
Theorem InitMeta_mirrors_recoverMeta {SM : Type} `{!SlotManager SM}
    (env : Env) (m : Manager SM) :
  let r := recoverMeta env m in
  loops.InitMeta (RecoverMeta env) env m =
  (value r, m, asInitMeta <$> trace r).
Proof.
  cbn zeta. unfold loops.InitMeta, recoverMeta.
  rewrite InitMeta_loop_mirrors. cbn zeta.
  by destruct (recoverMeta_loop_bounds env retrySQLTimes 0 None m) as [-> _].
Qed.

(** [InitMeta] fails twice, then succeeds: three calls, two sleeps, one
    warning, nil. *)
Example InitMeta_third_attempt :
  loops.InitMeta (RecoverMeta (sample.env ([], None) 2 100))
    (sample.env ([], None) 2 100) sample.idleNode =
  (None, sample.idleNode,
   [EvInitMeta ":4000" "background";
    Core (EvLog LWarn "start manager failed"
            [FString "scope" "background"; FInt "retry times" 0;
             FError (Some "registry unreachable")]);
    Core (EvSleep retrySQLInterval);
    EvInitMeta ":4000" "background";
    Core (EvSleep retrySQLInterval);
    EvInitMeta ":4000" "background"]).
Proof. by vm_compute. Qed.

(** ** Construction *)

Lemma NewManager_no_executor {SM : Type} `{!SlotManager SM}
    (host : Host) (newSlotManager : Z → SM) (id_ : string) (b : Built SM) :
  (NewManager host newSlotManager id_).1 = inl b →
  taskExecutors (manager b) = ∅.
Proof.
  unfold NewManager. destruct (MemTotal host) as [mem [err|]]; [by intros [=]|].
  destruct (bool_decide _); [by intros [=]|]. by intros [= <-].
Qed.

(** X4. [NewManager] succeeds exactly when [MemTotal] succeeds and both the
    CPU count and the memory are positive.  The Manager it builds has no live
    executor, the given id, the CPU count as total (positive) and a slot
    manager made for it; the memory total is the one read whenever that fits
    an [int64]; only the build message is logged, and nothing is launched.
    When it fails nothing is logged. *)
Theorem NewManager_builds {SM : Type} `{!SlotManager SM}
    (host : Host) (newSlotManager : Z → SM) (id_ : string) :
  let r := NewManager host newSlotManager id_ in
  ((∃ b, r.1 = inl b) ↔
     (MemTotal host).2 = None ∧ 0 < GetCPUCount host ∧ 0 < (MemTotal host).1) ∧
  (∀ b, r.1 = inl b →
     taskExecutors (manager b) = ∅ ∧
     id (manager b) = id_ ∧
     slotManager (manager b) = newSlotManager (GetCPUCount host) ∧
     totalCPU (manager b) = GetCPUCount host ∧ 0 < totalCPU (manager b) ∧
     ((MemTotal host).1 < 2 ^ 63 →
        totalMem (manager b) = (MemTotal host).1 ∧ 0 < totalMem (manager b)) ∧
     length r.2 = 1%nat ∧ forallb is_Log r.2 = true) ∧
  (∀ err, r.1 = inr err → r.2 = []).
Proof.
  cbn zeta. unfold NewManager.
  destruct (MemTotal host) as [mem [err|]]; cbn [fst snd].
  - split; [|split].
    + split; [intros [b [=]]|intros [[=] _]].
    + intros b [=].
    + done.
  - destruct (bool_decide_reflect (GetCPUCount host ≤ 0 ∨ mem ≤ 0))
      as [Hbad|Hgood]; cbn [fst snd].
    + split; [|split].
      * split; [intros [b [=]]|lia].
      * intros b [=].
      * done.
    + assert (0 < GetCPUCount host ∧ 0 < mem) as [Hcpu Hmem] by lia.
      split; [|split].
      * split; [done|eauto].
      * intros b [= <-]. cbn [manager taskExecutors id slotManager totalCPU
                                totalMem length].
        assert (mem < 2 ^ 63 → int64 mem = mem) as Hfit.
        { intros Hlt. unfold int64. rewrite Z.mod_small by lia. lia. }
        split_and!; try done.
        intros Hlt. by rewrite (Hfit Hlt).
      * intros err [=].
Qed.

Lemma NewManager_builds_witness :
  let host := {| MemTotal := (1024, None); GetCPUCount := 8; InTest := true;
                 BytesSize := fun _ => "1KiB" |} in
  let r := NewManager host
             (fun n => {| slots.capacity := n; slots.executorTasks := [] |})
             ":4000" in
  r.1 = inl {| manager := sample.idleNode;
               loggerFields := [FString "server-id" ":4000"] |} ∧
  totalMem sample.idleNode = 1024.
Proof.
  intros host r.
  assert (Hr : r.1 = inl {| manager := sample.idleNode;
                            loggerFields := [FString "server-id" ":4000"] |})
    by reflexivity.
  split; [exact Hr|].
  destruct (NewManager_builds host
              (fun n => {| slots.capacity := n; slots.executorTasks := [] |})
              ":4000") as (_ & Hb & _).
  destruct (Hb _ Hr) as (_ & _ & _ & _ & _ & Hmem & _).
  destruct Hmem as [Hmem _]; [reflexivity|]. exact Hmem.
Defined.

(** Zero CPUs: the error names both figures. *)
Example NewManager_no_cpu :
  NewManager {| MemTotal := (1024, None); GetCPUCount := 0; InTest := false;
                BytesSize := fun _ => "1KiB" |}
    (fun n => {| slots.capacity := n; slots.executorTasks := [] |}) ":4000" =
  (inr "invalid cpu or memory, cpu: 0, memory: 1024", []).
Proof. by vm_compute. Qed.

(** ** What a round does and never does *)

Lemma forallb_weaken (p q : Event → bool) tr :
  (∀ e, p e = true → q e = true) →
  forallb p tr = true → forallb q tr = true.
Proof.
  intros Hpq. rewrite !forallb_forall. auto.
Qed.

Lemma omap_never {A} (p : Event → bool) (f : Event → option A) tr :
  (∀ e, p e = true → f e = None) →
  forallb p tr = true → omap f tr = [].
Proof.
  intros Hpf. induction tr as [|e tr IH]; [done|].
  cbn [forallb]. intros [He Htr]%andb_true_iff.
  cbn. rewrite (Hpf e He). by apply IH.
Qed.

Lemma omap_skip {A} (f : Event → option A) e tr :
  f e = None → omap f (e :: tr) = omap f tr.
Proof. intros He. cbn. by rewrite He. Qed.

Section RoundEvents.

Context {SM : Type} `{!SlotManager SM}.
Variable env : Env.

Lemma admission_persisted (m : Manager SM) err taskID taskExecutor :
  forallb is_admission_event (persisted env m err taskID taskExecutor) = true.
Proof. persisted_cases. Qed.

Lemma admission_cancelSignals (execs : gmap Z TaskExecutor) tasks :
  forallb is_admission_event (flat_map (cancelSignal execs) tasks) = true.
Proof.
  induction tasks as [|task tasks IH]; [reflexivity|].
  cbn [flat_map]. rewrite forallb_app, IH, andb_true_r.
  unfold cancelSignal. by destruct (execs !! proto.ID task).
Qed.

Lemma admission_startTaskExecutor task (m : Manager SM) :
  forallb is_admission_event (trace (startTaskExecutor env task m)) = true.
Proof.
  rewrite startTaskExecutor_run.
  destruct (GetTaskExecutorFactory env (proto.Type_ task)) as [factory|];
    [|apply admission_persisted].
  cbn zeta. destruct (Init (factory (id m) task)); [|reflexivity].
  apply admission_persisted.
Qed.

Lemma admission_handleExecutableTasks taskInfos (m : Manager SM) :
  forallb is_admission_event (trace (handleExecutableTasks env taskInfos m)) =
  true.
Proof.
  revert m. induction taskInfos as [|task taskInfos IH]; intros m; [done|].
  rewrite handleExecutableTasks_cons. cbn zeta.
  destruct (canAlloc (slotManager m) (storage.Task task))
    as [ok [|t tasksNeedFree]]; cbn [fst snd].
  - destruct ok; cbn [trace snd forallb is_admission_event andb]; [|apply IH].
    by rewrite forallb_app, admission_startTaskExecutor, IH.
  - cbn [trace snd forallb is_admission_event andb].
    by rewrite forallb_app, admission_cancelSignals.
Qed.

Lemma round_classified (m : Manager SM) tasks :
  forallb is_round_event (flat_map (classified env m) tasks) = true.
Proof.
  induction tasks as [|task tasks IH]; [reflexivity|].
  cbn [flat_map]. rewrite forallb_app, IH, andb_true_r.
  unfold classified.
  destruct (proto.State (storage.Task task)); try done;
    destruct (taskExecutors m !! proto.ID (storage.Task task)); try done;
    by destruct (PauseSubtasks env (proto.ID (storage.Task task))).
Qed.

Lemma round_handleTasks (m : Manager SM) :
  forallb is_round_event (trace (handleTasks env m)) = true.
Proof.
  destruct (GetTaskExecInfoByExecID env) as [tasks [err|]] eqn:Hfetch.
  - by rewrite (handleTasks_fetch_error env tasks err m Hfetch).
  - rewrite (handleTasks_run env tasks m Hfetch). cbn zeta.
    cbn [trace snd forallb is_round_event andb].
    rewrite forallb_app, round_classified. cbn [andb].
    eapply forallb_weaken; [|apply admission_handleExecutableTasks].
    intros e He. by destruct e.
Qed.

Lemma mapWrites_grows tr (execs : gmap Z TaskExecutor) :
  forallb is_round_event tr = true →
  dom execs ⊆ dom (mapWrites tr execs).
Proof.
  revert execs. induction tr as [|e tr IH]; intros execs; [done|].
  cbn [forallb]. intros [He Htr]%andb_true_iff.
  destruct e; try discriminate; cbn [mapWrites]; try by apply IH.
  etrans; [|by apply IH]. rewrite dom_insert_L. set_solver.
Qed.

End RoundEvents.

(** X5. A round (and so the admission step in it) never removes an executor
    from the live set, never frees a reservation, never runs or closes an
    executor, never sleeps, never re-asserts the node identity, and never
    cancels the context or waits for a wait group: every call it makes is a
    log entry, a lock operation, a store into the executor map, the fetch, a
    pause or failure request, an admission check, a reservation, an [Init],
    a [Cancel], a [CancelRunningSubtask] or the launch of an executor unit.
    So every task id with a live executor before the round has one after
    it. *)
Theorem round_only_adds {SM : Type} `{!SlotManager SM}
    (env : Env) (m : Manager SM) :
  let r := handleTasks env m in
  forallb is_round_event (trace r) = true ∧
  dom (taskExecutors m) ⊆ dom (taskExecutors (after r)).
Proof.
  intros r. subst r. pose proof (round_handleTasks env m) as Hev.
  split; [exact Hev|].
  destruct (handleTasks_disciplined env m) as [_ ->].
  by apply mapWrites_grows.
Qed.

Section RoundSignals.

Context {SM : Type} `{!SlotManager SM}.
Variable env : Env.

Lemma subtaskCancel_classified (m : Manager SM) tasks :
  omap subtaskCancel (flat_map (classified env m) tasks) =
  omap (fun task =>
          if is_reverting (proto.State (storage.Task task))
          then taskExecutors m !! proto.ID (storage.Task task) else None)
       tasks.
Proof.
  induction tasks as [|task tasks IH]; [reflexivity|].
  cbn [flat_map]. rewrite omap_app, IH. unfold classified. cbn.
  destruct (proto.State (storage.Task task)); cbn; try done;
    destruct (taskExecutors m !! proto.ID (storage.Task task)); cbn; try done;
    by destruct (PauseSubtasks env (proto.ID (storage.Task task))).
Qed.

Lemma pauseRequest_classified (m : Manager SM) tasks :
  omap pauseRequest (flat_map (classified env m) tasks) =
  (fun task => proto.ID (storage.Task task)) <$>
  List.filter (fun task => is_pausing (proto.State (storage.Task task))) tasks.
Proof.
  induction tasks as [|task tasks IH]; [reflexivity|].
  cbn [flat_map List.filter]. rewrite omap_app, IH. unfold classified.
  destruct (proto.State (storage.Task task)); cbn; try done;
    destruct (taskExecutors m !! proto.ID (storage.Task task)); cbn; try done;
    by destruct (PauseSubtasks env (proto.ID (storage.Task task))).
Qed.

Lemma admission_never_signals taskInfos (m : Manager SM) :
  omap subtaskCancel (trace (handleExecutableTasks env taskInfos m)) = [] ∧
  omap pauseRequest (trace (handleExecutableTasks env taskInfos m)) = [].
Proof.
  split; (eapply omap_never; [|apply admission_handleExecutableTasks]);
    intros e He; by destruct e.
Qed.

End RoundSignals.

(** X6. In a round whose fetch succeeds, [CancelRunningSubtask] is sent to the
    live executors of the fetched reverting tasks, once each in the order of
    the fetch, and to no other executor (never to the executor of a running
    or pausing task); [PauseSubtasks] is requested once for each fetched
    pausing task, in the order of the fetch, and for no other task. *)
Theorem round_signals_exact {SM : Type} `{!SlotManager SM}
    (env : Env) (m : Manager SM) (tasks : list storage.TaskExecInfo) :
  GetTaskExecInfoByExecID env = (tasks, None) →
  let r := handleTasks env m in
  omap subtaskCancel (trace r) =
    omap (fun task =>
            if is_reverting (proto.State (storage.Task task))
            then taskExecutors m !! proto.ID (storage.Task task) else None)
         tasks ∧
  omap pauseRequest (trace r) =
    (fun task => proto.ID (storage.Task task)) <$>
    List.filter (fun task => is_pausing (proto.State (storage.Task task)))
      tasks.
Proof.
  intros Hfetch r. subst r. rewrite (handleTasks_run env tasks m Hfetch).
  cbn zeta. cbn [trace snd].
  destruct (admission_never_signals env (List.filter (candidate m) tasks) m)
    as [Hc Hp].
  split.
  - change (?e :: ?l ++ ?l') with ([e] ++ l ++ l').
    rewrite !omap_app, Hc, app_nil_r. apply subtaskCancel_classified.
  - change (?e :: ?l ++ ?l') with ([e] ++ l ++ l').
    rewrite !omap_app, Hp, app_nil_r. apply pauseRequest_classified.
Qed.

(** A running task with its executor, a pausing task and a reverting task
    without executor: one pause request, no subtask cancellation. *)
Lemma round_signals_exact_witness :
  let tasks := [sample.info sample.taskA; sample.info sample.taskP;
                sample.info sample.taskD] in
  let r := handleTasks (sample.env (tasks, None) 0 100) sample.nodeWithA in
  omap subtaskCancel (trace r) = [] ∧ omap pauseRequest (trace r) = [5].
Proof.
  intros tasks r.
  exact (round_signals_exact (sample.env (tasks, None) 0 100)
           sample.nodeWithA tasks eq_refl).
Defined.

(** ** Candidates, launches and reservations *)

Section Launches.

Context {SM : Type} `{!SlotManager SM}.
Variable env : Env.

Lemma candidate_iff (m : Manager SM) task :
  candidate m task = true ↔
  is_executable (proto.State (storage.Task task)) = true ∧
  taskExecutors m !! proto.ID (storage.Task task) = None.
Proof.
  unfold candidate, is_executable.
  destruct (proto.State (storage.Task task));
    rewrite ?negb_true_iff, ?bool_decide_eq_false, <-?eq_None_not_Some;
    intuition discriminate.
Qed.

Lemma filter_sublist {A} (p : A → bool) (l : list A) :
  List.filter p l `sublist_of` l.
Proof.
  induction l as [|x l IH]; [done|]. cbn.
  destruct (p x); [by apply sublist_skip|by apply sublist_cons].
Qed.

Lemma reservation_persisted (m : Manager SM) err taskID taskExecutor :
  omap reservation (persisted env m err taskID taskExecutor) = [].
Proof. persisted_cases. Qed.

(** What one start adds: nothing, or the task: launched and reserved. *)
Lemma startTaskExecutor_adds task (m : Manager SM) :
  let r := startTaskExecutor env task m in
  (launched (trace r) = [] ∧ omap reservation (trace r) = [] ∧
   slotManager (after r) = slotManager m) ∨
  (launched (trace r) = [task] ∧ omap reservation (trace r) = [task] ∧
   slotManager (after r) = alloc (slotManager m) task).
Proof.
  cbn zeta. rewrite startTaskExecutor_run.
  destruct (GetTaskExecutorFactory env (proto.Type_ task)) as [factory|].
  - cbn zeta. destruct (Init (factory (id m) task)) as [err|]; [|by right].
    left. cbn [trace after fst snd launched].
    split; [apply launched_persisted|]. split; [|done].
    change (?e :: ?l) with ([e] ++ l). rewrite omap_app.
    by rewrite reservation_persisted.
  - left. cbn [trace after fst snd].
    split; [apply launched_persisted|]. split; [|done].
    apply reservation_persisted.
Qed.

Lemma reservation_cancelSignals (execs : gmap Z TaskExecutor) tasks :
  omap reservation (flat_map (cancelSignal execs) tasks) = [].
Proof.
  induction tasks as [|task tasks IH]; [reflexivity|].
  cbn [flat_map]. rewrite omap_app, IH, app_nil_r.
  unfold cancelSignal. by destruct (execs !! proto.ID task).
Qed.

Lemma handleExecutableTasks_launches taskInfos (m : Manager SM) :
  let r := handleExecutableTasks env taskInfos m in
  launched (trace r) `sublist_of` (storage.Task <$> taskInfos) ∧
  omap reservation (trace r) = launched (trace r) ∧
  slotManager (after r) = foldl alloc (slotManager m) (launched (trace r)).
Proof.
  revert m. induction taskInfos as [|task taskInfos IH]; intros m.
  - cbn. split; [done|]. by split.
  - cbn zeta. rewrite handleExecutableTasks_cons. cbn zeta.
    destruct (canAlloc (slotManager m) (storage.Task task))
      as [ok [|t tasksNeedFree]]; cbn [fst snd].
    + destruct ok; cbn [trace after fst snd launched].
      * destruct (IH (after (startTaskExecutor env (storage.Task task) m)))
          as (Hsub & Hres & Hslots).
        rewrite omap_skip by done.
        rewrite launched_app, omap_app, Hres, Hslots, foldl_app.
        destruct (startTaskExecutor_adds (storage.Task task) m)
          as [(-> & -> & ->)|(-> & -> & ->)]; cbn [app foldl fmap list_fmap].
        -- split; [by apply sublist_cons|]. by split.
        -- split; [by apply sublist_skip|]. by split.
      * destruct (IH m) as (Hsub & Hres & Hslots).
        rewrite !omap_skip by done.
        cbn [fmap list_fmap]. split; [by apply sublist_cons|]. by split.
    + cbn [trace after fst snd launched].
      rewrite !omap_skip by done.
      rewrite launched_app, omap_app, launched_cancelSignals,
        reservation_cancelSignals.
      cbn. split; [apply sublist_nil_l|]. by split.
Qed.

Lemma launched_classified (m : Manager SM) tasks :
  launched (flat_map (classified env m) tasks) = [] ∧
  omap reservation (flat_map (classified env m) tasks) = [].
Proof.
  induction tasks as [|task tasks [IHl IHr]]; [done|].
  cbn [flat_map]. rewrite launched_app, omap_app, IHl, IHr, !app_nil_r.
  unfold classified.
  destruct (proto.State (storage.Task task)); cbn; try done;
    destruct (taskExecutors m !! proto.ID (storage.Task task)); cbn; try done;
    by destruct (PauseSubtasks env (proto.ID (storage.Task task))).
Qed.

(** The launches and reservations of a round are those of its admission
    step over the candidates. *)
Lemma handleTasks_launches (m : Manager SM) :
  let tasks := (GetTaskExecInfoByExecID env).1 in
  let r := handleTasks env m in
  launched (trace r) `sublist_of`
    (storage.Task <$> List.filter (candidate m) tasks) ∧
  omap reservation (trace r) = launched (trace r) ∧
  slotManager (after r) = foldl alloc (slotManager m) (launched (trace r)).
Proof.
  cbn zeta.
  destruct (GetTaskExecInfoByExecID env) as [tasks [err|]] eqn:Hfetch.
  - rewrite (handleTasks_fetch_error env tasks err m Hfetch). cbn.
    split; [apply sublist_nil_l|]. by split.
  - rewrite (handleTasks_run env tasks m Hfetch). cbn zeta.
    cbn [trace after fst snd launched].
    destruct (launched_classified m tasks) as [Hl Hr].
    rewrite omap_skip by done.
    rewrite launched_app, omap_app, Hl, Hr. cbn [app].
    apply handleExecutableTasks_launches.
Qed.

End Launches.

(** X7. The start-candidates of a round are all the fetched tasks that are
    running or reverting and have no live executor (a reverting task without
    executor is one of them), and they keep the order of the fetch; computing
    them leaves the Manager as it is. *)
Theorem candidates_complete_in_order {SM : Type} `{!SlotManager SM}
    (env : Env) (m : Manager SM) (tasks : list storage.TaskExecInfo) :
  let r := handleTasks_range env tasks [] m in
  (∀ task,
     task ∈ tasks →
     is_executable (proto.State (storage.Task task)) = true →
     taskExecutors m !! proto.ID (storage.Task task) = None →
     task ∈ value r) ∧
  value r `sublist_of` tasks ∧
  after r = m.
Proof.
  cbn zeta. rewrite handleTasks_range_run. cbn [value after fst snd app].
  split; [|split; [apply filter_sublist|done]].
  intros task Hin Hstate Hfree.
  apply list_elem_of_In, filter_In. split; [by apply list_elem_of_In|].
  by apply candidate_iff.
Qed.

(** D is reverting and has no executor: it is a candidate. *)
Lemma candidates_complete_in_order_witness :
  let tasks := [sample.info sample.taskA; sample.info sample.taskD] in
  sample.info sample.taskD ∈
    value (handleTasks_range sample.quiet tasks [] sample.nodeWithA).
Proof.
  intros tasks.
  destruct (candidates_complete_in_order sample.quiet sample.nodeWithA tasks)
    as [Hall _].
  apply Hall; [|reflexivity|reflexivity].
  apply elem_of_cons. right. apply elem_of_cons. by left.
Defined.



(** X9. In a round, capacity is reserved exactly for the tasks whose executor
    unit is launched, in that order: the slot manager after the round is the
    one before it with [alloc] applied for each launched task, and nothing
    else touches it (no reservation without a launch, no launch without a
    reservation, no release). *)
Theorem round_reserves_what_it_launches {SM : Type} `{!SlotManager SM}
    (env : Env) (m : Manager SM) :
  let r := handleTasks env m in
  omap reservation (trace r) = launched (trace r) ∧
  slotManager (after r) = foldl alloc (slotManager m) (launched (trace r)).
Proof.
  cbn zeta. by destruct (handleTasks_launches env m) as (_ & Hres & Hslots).
Qed.

(** ** The life of an executor *)

(** X10. Start and exit undo each other on the live set.  When a task is
    started with success under an id that had no live executor, the executor
    is registered under the id of its task and the unit launched is the one
    for this task, executor and grant; when that unit ends, in whatever way
    [Run] ends, the executor map is again what it was before the start, and
    the slot manager has seen one [alloc] of the task and one [free] of its
    id. *)
Theorem start_then_exit_restores {SM : Type} `{!SlotManager SM}
    (env : Env) (m : Manager SM) (task : proto.Task) (factory : Factory) :
  GetTaskExecutorFactory env (proto.Type_ task) = Some factory →
  let executor := factory (id m) task in
  Init executor = None →
  taskExecutors m !! proto.ID (GetTask executor) = None →
  let r1 := startTaskExecutor env task m in
  let r2 := executorUnit task executor (grant env m task) (after r1) in
  taskExecutors (after r1) !! proto.ID (GetTask executor) = Some executor ∧
  EvGoExecutor executorWG task executor (grant env m task) ∈ trace r1 ∧
  taskExecutors (after r2) = taskExecutors m ∧
  slotManager (after r2) =
    free (alloc (slotManager m) task) (proto.ID task).
Proof.
  intros Hf executor Hinit Hfree r1 r2. subst r1 r2.
  rewrite startTaskExecutor_run, Hf. cbn zeta. fold executor. rewrite Hinit.
  cbn [after trace fst snd]. split_and!.
  - cbn. apply lookup_insert_eq.
  - do 6 (apply elem_of_cons; right). apply elem_of_cons. by left.
  - cbn. by apply delete_insert_id.
  - reflexivity.
Qed.

(** The executor panics in [Run]: the live set is empty again. *)
Lemma start_then_exit_restores_witness :
  let executor := sample.executor None false RunPanicked sample.taskPanic in
  let r1 := startTaskExecutor sample.quiet sample.taskPanic sample.idleNode in
  let r2 := executorUnit sample.taskPanic executor
              (grant sample.quiet sample.idleNode sample.taskPanic)
              (after r1) in
  taskExecutors (after r1) !! 10 = Some executor ∧
  taskExecutors (after r2) = ∅ ∧ value r2 = Panicking.
Proof.
  intros executor r1 r2.
  destruct (start_then_exit_restores sample.quiet sample.idleNode
              sample.taskPanic
              (fun _ => sample.executor None false RunPanicked))
    as (Hreg & _ & Hmap & _); [reflexivity..|].
  split; [exact Hreg|]. split; [exact Hmap|reflexivity].
Defined.

(** X11. A started task is not started again while its unit is alive, and can
    be started again once the unit has ended.  After a successful start whose
    executor reports the task it was made for, a fetched task with that id is
    no start-candidate; after the unit has ended, a fetched running or
    reverting task with that id is a start-candidate again. *)
Theorem candidate_again_only_after_exit {SM : Type} `{!SlotManager SM}
    (env : Env) (m : Manager SM) (task : proto.Task) (factory : Factory)
    (fetched : storage.TaskExecInfo) :
  GetTaskExecutorFactory env (proto.Type_ task) = Some factory →
  let executor := factory (id m) task in
  Init executor = None →
  proto.ID (GetTask executor) = proto.ID task →
  proto.ID (storage.Task fetched) = proto.ID task →
  let r1 := startTaskExecutor env task m in
  let r2 := executorUnit task executor (grant env m task) (after r1) in
  candidate (after r1) fetched = false ∧
  candidate (after r2) fetched =
    is_executable (proto.State (storage.Task fetched)).
Proof.
  intros Hf executor Hinit Hkey Hid r1 r2. subst r1 r2.
  rewrite startTaskExecutor_run, Hf. cbn zeta. fold executor. rewrite Hinit.
  cbn [after fst snd]. unfold candidate, is_executable. rewrite Hid, <-Hkey.
  split.
  - cbn. rewrite lookup_insert_eq.
    rewrite bool_decide_eq_true_2 by eauto.
    by destruct (proto.State (storage.Task fetched)).
  - cbn. rewrite lookup_delete_eq.
    rewrite bool_decide_eq_false_2 by (intros [? [=]]).
    by destruct (proto.State (storage.Task fetched)).
Qed.

Lemma candidate_again_only_after_exit_witness :
  let executor := sample.executor None false RunFinished sample.taskB in
  let r1 := startTaskExecutor sample.quiet sample.taskB sample.idleNode in
  let r2 := executorUnit sample.taskB executor
              (grant sample.quiet sample.idleNode sample.taskB) (after r1) in
  candidate (after r1) (sample.info sample.taskB) = false ∧
  candidate (after r2) (sample.info sample.taskB) = true.
Proof.
  intros executor r1 r2.
  exact (candidate_again_only_after_exit sample.quiet sample.idleNode
           sample.taskB (fun _ => sample.executor None false RunFinished)
           (sample.info sample.taskB) eq_refl eq_refl eq_refl eq_refl).
Defined.

(** X12. A round in which every fetched running or reverting task already has
    a live executor leaves the Manager as it is: nothing is started, reserved
    or removed, and the admission step is not entered (no admission check is
    made). *)
Theorem steady_round_changes_nothing {SM : Type} `{!SlotManager SM}
    (env : Env) (m : Manager SM) (tasks : list storage.TaskExecInfo) :
  GetTaskExecInfoByExecID env = (tasks, None) →
  (∀ task, task ∈ tasks →
     is_executable (proto.State (storage.Task task)) = true →
     is_Some (taskExecutors m !! proto.ID (storage.Task task))) →
  let r := handleTasks env m in
  after r = m ∧ launched (trace r) = [] ∧
  omap (fun e => match e with EvCanAlloc t => Some t | _ => None end)
       (trace r) = [].
Proof.
  intros Hfetch Hlive r. subst r.
  assert (Hnone : List.filter (candidate m) tasks = []).
  { clear Hfetch. induction tasks as [|task tasks IH]; [done|]. cbn.
    destruct (candidate m task) eqn:Hc.
    - apply candidate_iff in Hc as [Hstate Hfree].
      destruct (Hlive task) as [e He]; [by left|done|congruence].
    - apply IH. intros t Ht. apply Hlive. by right. }
  rewrite (handleTasks_run env tasks m Hfetch), Hnone. cbn zeta.
  cbn [handleExecutableTasks ret after trace fst snd launched].
  rewrite app_nil_r. split; [done|].
  destruct (launched_classified env m tasks) as [Hl _].
  split; [exact Hl|].
  rewrite omap_skip by done. clear.
  induction tasks as [|task tasks IH]; [done|].
  cbn [flat_map]. rewrite omap_app, IH, app_nil_r. unfold classified.
  destruct (proto.State (storage.Task task)); cbn; try done;
    destruct (taskExecutors m !! proto.ID (storage.Task task)); cbn; try done;
    by destruct (PauseSubtasks env (proto.ID (storage.Task task))).
Qed.

(** A and the pausing task P are fetched while A runs: nothing changes. *)
Lemma steady_round_changes_nothing_witness :
  let tasks := [sample.info sample.taskA; sample.info sample.taskP] in
  let env := sample.env (tasks, None) 0 100 in
  after (handleTasks env sample.nodeWithA) = sample.nodeWithA.
Proof.
  intros tasks env.
  destruct (steady_round_changes_nothing env sample.nodeWithA tasks)
    as [Hsame _]; [reflexivity| |exact Hsame].
  intros task [->|[->|[]%elem_of_nil]%elem_of_cons]%elem_of_cons Hstate.
  - by eexists.
  - discriminate.
Defined.

(** ** The two loops *)

Lemma doneAmong_elem_of wakeups : doneAmong wakeups = true ↔ CtxDone ∈ wakeups.
Proof.
  induction wakeups as [|[|env] wakeups IH]; cbn.
  - split; [discriminate|by intros ?%elem_of_nil].
  - split; [by left|done].
  - rewrite IH. split; [by right|].
    by intros [[=]|?]%elem_of_cons.
Qed.

Section LoopFacts.

Context {SM : Type} `{!SlotManager SM}.

Lemma handleTasksLoop_for_tick env wakeups (m : Manager SM) :
  let r := handleTasks env m in
  let r' := loops.handleTasksLoop_for wakeups (after r) in
  loops.handleTasksLoop_for (Tick env :: wakeups) m =
  (valueX r', afterX r', (Core <$> trace r) ++ traceX r').
Proof. cbn [loops.handleTasksLoop_for]. by run_loop. Qed.

Lemma handleTasksLoop_for_done wakeups (m : Manager SM) :
  loops.handleTasksLoop_for (CtxDone :: wakeups) m =
  (LoopReturned, m, [Core (EvLog LInfo "handle tasks loop done" [])]).
Proof. reflexivity. Qed.

Lemma omap_coreOf_Core (tr : list Event) : omap coreOf (Core <$> tr) = tr.
Proof. induction tr as [|e tr IH]; [done|]. cbn. by rewrite IH. Qed.



End LoopFacts.



Section RecoverMetaLoopFacts.

Context {SM : Type} `{!SlotManager SM}.

(** What one tick of the recovery loop leaves in the trace. *)
Lemma recoverMetaLoop_for_spec wakeups (m : Manager SM) :
  loops.recoverMetaLoop_for wakeups m =
  (if doneAmong wakeups then LoopReturned else LoopSelecting, m,
   flat_map
     (fun env =>
        Core <$>
          (trace (recoverMeta env m) ++
           match value (recoverMeta env m) with
           | Some e =>
               [EvLog LError "task manager met error" [FError (Some e); FStack]]
           | None => []
           end))
     (ticksBeforeDone wakeups) ++
   (if doneAmong wakeups
    then [Core (EvLog LInfo "recoverMetaLoop done" [])] else [])).
Proof.
  induction wakeups as [|[|env] wakeups IH]; [reflexivity..|].
  cbn [loops.recoverMetaLoop_for doneAmong ticksBeforeDone flat_map].
  run_loop.
  assert (Hsame : after (recoverMeta env m) = m).
  { unfold recoverMeta.
    by destruct (recoverMeta_loop_bounds env retrySQLTimes 0 None m). }
  rewrite Hsame.
  destruct (value (recoverMeta env m)) as [e|]; run_loop;
    cbn [logErr emit value after trace fst snd]; rewrite IH;
    cbn [valueX afterX traceX fst snd];
    rewrite fmap_app, <-?app_assoc; reflexivity.
Qed.

End RecoverMetaLoopFacts.

(** X14. [recoverMetaLoop] creates a ticker of 90 s and runs [recoverMeta]
    once for each tick received before the context is done, whether the
    earlier invocations failed or not: a failure is logged and the loop goes
    on.  It returns exactly when the context is done, and it leaves the
    Manager (live executors and reservations) untouched. *)
Theorem recoverMetaLoop_survives_errors {SM : Type} `{!SlotManager SM}
    (wakeups : list Wakeup) (m : Manager SM) :
  let r := loops.recoverMetaLoop wakeups m in
  afterX r = m ∧
  (valueX r = LoopReturned ↔ CtxDone ∈ wakeups) ∧
  traceX r =
    EvNewTicker (90 * Second) ::
    flat_map
      (fun env =>
         Core <$>
           (trace (recoverMeta env m) ++
            match value (recoverMeta env m) with
            | Some e =>
                [EvLog LError "task manager met error"
                   [FError (Some e); FStack]]
            | None => []
            end))
      (ticksBeforeDone wakeups) ++
    (if doneAmong wakeups
     then [Core (EvLog LInfo "recoverMetaLoop done" [])] else []).
Proof.
  cbn zeta. unfold loops.recoverMetaLoop. run_loop.
  rewrite recoverMetaLoop_for_spec.
  cbn [valueX afterX traceX fst snd]. split; [done|]. split; [|done].
  rewrite <-doneAmong_elem_of. by destruct (doneAmong wakeups).
Qed.

(** The first tick exhausts its 30 attempts, the second succeeds at once:
    both invocations run, 31 attempts in all. *)
Example recoverMetaLoop_after_failure :
  let r := loops.recoverMetaLoop
             [Tick (sample.env ([], None) 30 100); Tick sample.quiet]
             sample.idleNode in
  valueX r = LoopSelecting ∧
  count is_RecoverMeta (omap coreOf (traceX r)) = 31%nat.
Proof. by vm_compute. Qed.

Section LoopInvariants.

Context {SM : Type} `{!SlotManager SM}.

Lemma same_node_trans (m1 m2 m3 : Manager SM) :
  same_node m1 m2 → same_node m2 m3 → same_node m1 m3.
Proof. unfold same_node. intuition congruence. Qed.

Lemma startTaskExecutor_same_node env task (m : Manager SM) :
  same_node m (after (startTaskExecutor env task m)).
Proof.
  rewrite startTaskExecutor_run.
  destruct (GetTaskExecutorFactory env (proto.Type_ task)) as [factory|];
    [|done].
  cbn zeta. by destruct (Init (factory (id m) task)).
Qed.

Lemma handleExecutableTasks_same_node env taskInfos (m : Manager SM) :
  same_node m (after (handleExecutableTasks env taskInfos m)).
Proof.
  revert m. induction taskInfos as [|task taskInfos IH]; intros m; [done|].
  rewrite handleExecutableTasks_cons. cbn zeta.
  destruct (canAlloc (slotManager m) (storage.Task task))
    as [ok [|t tasksNeedFree]]; cbn [fst snd]; [|done].
  destruct ok; cbn [after fst snd]; [|apply IH].
  eapply same_node_trans; [apply startTaskExecutor_same_node|apply IH].
Qed.

Lemma handleTasks_same_node env (m : Manager SM) :
  same_node m (after (handleTasks env m)).
Proof.
  destruct (GetTaskExecInfoByExecID env) as [tasks [err|]] eqn:Hfetch.
  - by rewrite (handleTasks_fetch_error env tasks err m Hfetch).
  - rewrite (handleTasks_run env tasks m Hfetch). cbn zeta.
    apply handleExecutableTasks_same_node.
Qed.

Lemma handleTasksLoop_for_invariants wakeups (m : Manager SM) :
  let r := loops.handleTasksLoop_for wakeups m in
  lockRun Unlocked (omap coreOf (traceX r)) = Some Unlocked ∧
  taskExecutors (afterX r) =
    mapWrites (omap coreOf (traceX r)) (taskExecutors m) ∧
  forallb is_round_event (omap coreOf (traceX r)) = true ∧
  (keyed m → keyed (afterX r)) ∧
  same_node m (afterX r).
Proof.
  revert m. induction wakeups as [|[|env] wakeups IH]; intros m.
  - cbn. by split_and!.
  - cbn. by split_and!.
  - cbn zeta. rewrite handleTasksLoop_for_tick. cbn zeta.
    destruct (IH (after (handleTasks env m))) as (Hl & Hm & He & Hk & Hn).
    destruct (handleTasks_disciplined env m) as [Hl1 Hm1].
    cbn [valueX afterX traceX fst snd].
    rewrite omap_app, omap_coreOf_Core. split_and!.
    + by apply lockRun_seq.
    + by rewrite mapWrites_app, <-Hm1.
    + by rewrite forallb_app, round_handleTasks.
    + intros Hkeyed. by apply Hk, handleTasks_keyed.
    + eapply same_node_trans; [apply handleTasks_same_node|exact Hn].
Qed.

End LoopInvariants.

(** X15. Whatever ticks [handleTasksLoop] receives and whatever the
    collaborators answer, over the whole run of the loop the lock is taken
    and released properly, the executor map is written only under the write
    lock and only by stores (the loop never removes an executor, so every id
    that was live stays live until its unit ends), executors stay under the
    id of their own task, and the node id and the CPU and memory totals never
    change. *)
Theorem handleTasksLoop_keeps_invariants {SM : Type} `{!SlotManager SM}
    (wakeups : list Wakeup) (m : Manager SM) :
  let r := loops.handleTasksLoop wakeups m in
  lockRun Unlocked (omap coreOf (traceX r)) = Some Unlocked ∧
  taskExecutors (afterX r) =
    mapWrites (omap coreOf (traceX r)) (taskExecutors m) ∧
  dom (taskExecutors m) ⊆ dom (taskExecutors (afterX r)) ∧
  (keyed m → keyed (afterX r)) ∧
  id (afterX r) = id m ∧
  totalCPU (afterX r) = totalCPU m ∧ totalMem (afterX r) = totalMem m.
Proof.
  cbn zeta. unfold loops.handleTasksLoop. run_loop.
  destruct (handleTasksLoop_for_invariants wakeups m)
    as (Hl & Hm & He & Hk & Hid & Hcpu & Hmem).
  cbn zeta in Hl, Hm, He, Hk. cbn [app omap list_omap coreOf].
  split_and!; try done.
  rewrite Hm. by apply mapWrites_grows.
Qed.

Lemma handleTasksLoop_keeps_invariants_witness :
  let env := sample.env ([sample.info sample.taskA; sample.info sample.taskC],
                         None) 0 100 in
  keyed (afterX (loops.handleTasksLoop [Tick env; Tick env; CtxDone]
                   sample.nodeWithA)).
Proof.
  intros env.
  destruct (handleTasksLoop_keeps_invariants [Tick env; Tick env; CtxDone]
              sample.nodeWithA) as (_ & _ & _ & Hk & _).
  exact (Hk sample_nodeWithA_keyed).
Defined.

(** ** From construction to the first round *)

(** X16. On a Manager fresh from [NewManager] no executor is live, so in its
    first round every fetched running or reverting task is a start-candidate,
    in the order of the fetch, and no [Cancel] or [CancelRunningSubtask] can
    be sent by the loop over the fetched tasks. *)
Theorem fresh_manager_first_round {SM : Type} `{!SlotManager SM}
    (host : Host) (newSlotManager : Z → SM) (id_ : string) (b : Built SM)
    (env : Env) (tasks : list storage.TaskExecInfo) :
  (NewManager host newSlotManager id_).1 = inl b →
  let r := handleTasks_range env tasks [] (manager b) in
  value r =
    List.filter (fun task => is_executable (proto.State (storage.Task task)))
      tasks ∧
  canceled (trace r) = [] ∧ omap subtaskCancel (trace r) = [].
Proof.
  intros Hempty%NewManager_no_executor.
  cbn zeta. rewrite handleTasks_range_run. cbn [value trace fst snd app].
  split; [|split].
  - induction tasks as [|task tasks IH]; [done|]. cbn. rewrite IH.
    unfold candidate, is_executable. rewrite Hempty, lookup_empty.
    rewrite bool_decide_eq_false_2 by (intros [? [=]]).
    by destruct (proto.State (storage.Task task)).
  - induction tasks as [|task tasks IH]; [done|].
    cbn [flat_map]. rewrite canceled_app, IH, app_nil_r.
    unfold classified. rewrite Hempty, lookup_empty.
    destruct (proto.State (storage.Task task)); try done.
    by destruct (PauseSubtasks env (proto.ID (storage.Task task))).
  - rewrite subtaskCancel_classified.
    induction tasks as [|task tasks IH]; [done|]. cbn.
    rewrite Hempty, lookup_empty. rewrite Hempty in IH.
    by destruct (is_reverting (proto.State (storage.Task task))).
Qed.

Lemma fresh_manager_first_round_witness :
  let host := {| MemTotal := (1024, None); GetCPUCount := 8; InTest := true;
                 BytesSize := fun _ => "1KiB" |} in
  let tasks := [sample.info sample.taskA; sample.info sample.taskP;
                sample.info sample.taskD] in
  value (handleTasks_range sample.quiet tasks [] sample.idleNode) =
    [sample.info sample.taskA; sample.info sample.taskD].
Proof.
  intros host tasks.
  destruct (fresh_manager_first_round host
              (fun n => {| slots.capacity := n; slots.executorTasks := [] |})
              ":4000"
              {| manager := sample.idleNode;
                 loggerFields := [FString "server-id" ":4000"] |}
              sample.quiet tasks) as [Hv _]; [reflexivity|].
  exact Hv.
Defined.

(** The candidates are chosen before any of them is started: a task fetched
    twice in one round is started twice, and the second executor replaces the
    first in the live set. *)
Example duplicate_fetch_starts_twice :
  let env := sample.env ([sample.info sample.taskB; sample.info sample.taskB],
                         None) 0 100 in
  let r := handleTasks env sample.idleNode in
  launched (trace r) = [sample.taskB; sample.taskB] ∧
  size (taskExecutors (after r)) = 1%nat.
Proof. by vm_compute. Qed.
